(** * streamlit_app.py: the credit-scoring dashboard, embedded and verified

    The dashboard is one Python script that Streamlit re-runs from top to
    bottom on every interaction.  This development embeds the script as
    Rocq functions, section by section, and proves the properties that its
    specification states about it.

    - Python [float] and NumPy [float64] values are IEEE 754 binary64
      numbers, modelled by the Standard Library's [spec_float] with
      precision 53 and maximal exponent 1024 (module [Float64]).
    - Python [int] and NumPy [int64] cells are [Z]; the script performs no
      arithmetic on them, so no wrap-around can occur.
    - Python [str] is the [string] of its UTF-8 bytes.  The apostrophe is
      one byte that occurs in no other character, so splitting on it is
      exact for every text; white space and digits are recognised in
      ASCII only, so what is stated of [split()] and [float()] is stated
      of ASCII texts.
    - A row taken out of a frame with [.iloc] is the catalog record; the
      script holds its cells as float64, which is the same number for an
      integer cell of magnitude up to 2^53 ([as_float64], [exact_cells]).
    - The effects of a run are the request and the elements of the page
      whose content depends on the data; titles, headers and the widgets
      themselves are not followed.  The answers of the service are those
      of its contract: no body, a body that is not JSON, or an object
      with an optional number [score] and an optional list of texts
      [explanations].
    - A pandas [DataFrame] is the list of its rows, a [Series] the list of
      its cells, in row order.
    - A raised exception is a value of [exn]; code that can raise returns
      [exn + A], and code that also draws on the page runs in the monad
      [M], which keeps what was drawn before the exception. *)

From Stdlib Require Import ZArith List String Ascii Bool Lia.
From Stdlib Require Import Floats.SpecFloat.
Import ListNotations.

Local Open Scope string_scope.
Local Open Scope list_scope.
Local Open Scope Z_scope.

(** ** Exceptions *)

(** The exceptions the script can meet on a data file that is missing or
    has its header and on answers of the shape the service promises.
    [StopException] is what [st.stop()] raises; it derives from
    [BaseException], so that [except Exception] does not catch it. *)
Inductive exn : Type :=
| FileNotFoundError
| IndexError
| ValueError
| OverflowError
| ConnectionError
| Timeout
| HTTPError
| JSONDecodeError
| StreamlitJSNumberBoundsError
| StopException.

(** [isinstance(e, Exception)]. *)
Definition is_Exception (e : exn) : bool :=
  match e with
  | StopException => false
  | _ => true
  end.

Definition result (A : Type) : Type := (exn + A)%type.

Definition ok {A : Type} (a : A) : result A := inr a.
Definition raise {A : Type} (e : exn) : result A := inl e.

Definition rbind {A B : Type} (r : result A) (k : A -> result B) : result B :=
  match r with
  | inl e => inl e
  | inr a => k a
  end.

(** A list comprehension [[f(x) for x in l]] whose body can raise: the
    elements are evaluated from left to right and the first exception
    aborts the comprehension. *)
Fixpoint comprehension {A B : Type} (f : A -> result B) (l : list A) : result (list B) :=
  match l with
  | [] => ok []
  | x :: l' =>
      rbind (f x) (fun y => rbind (comprehension f l') (fun ys => ok (y :: ys)))
  end.

(** ** Binary64 floating-point numbers *)

Module Float64.

Definition prec : Z := 53.
Definition emax : Z := 1024.

Definition float : Type := spec_float.

(** Conversion of a Python integer, rounding to nearest even. *)
Definition of_int (z : Z) : float := binary_normalize prec emax z 0 false.

Definition zero : float := S754_zero false.
Definition one : float := of_int 1.

Definition ltb (x y : float) : bool := SFltb x y.
Definition leb (x y : float) : bool := SFleb x y.
Definition abs (x : float) : float := SFabs x.
Definition div (x y : float) : float := SFdiv prec emax x y.
Definition mul (x y : float) : float := SFmul prec emax x y.

Definition is_nan (x : float) : bool :=
  match x with
  | S754_nan => true
  | _ => false
  end.

(** [x == 0] for a float: both signed zeros. *)
Definition is_zero (x : float) : bool :=
  match x with
  | S754_zero _ => true
  | _ => false
  end.

(** [bool(x)]: a float is falsy exactly when it is a zero. *)
Definition truthy (x : float) : bool := negb (is_zero x).

(** [int(x)]: truncation towards zero; [int(nan)] raises [ValueError] and
    [int(inf)] raises [OverflowError]. *)
Definition to_int (x : float) : result Z :=
  match x with
  | S754_nan => raise ValueError
  | S754_infinity _ => raise OverflowError
  | S754_zero _ => ok 0
  | S754_finite s m e =>
      let a := Z.shiftl (Zpos m) e in
      ok (if s then - a else a)
  end.

(** The correctly rounded value of the decimal [(-1)^s * d * 10^e10]. *)
Definition of_decimal (s : bool) (d : Z) (e10 : Z) : float :=
  match d with
  | Zpos p =>
      match e10 with
      | Zneg k =>
          SFdiv prec emax (S754_finite s p 0)
                (S754_finite false (Pos.pow 10 k) 0)
      | _ => binary_normalize prec emax ((if s then Zneg p else Zpos p) * 10 ^ e10) 0 false
      end
  | _ => S754_zero s
  end.

End Float64.

Import Float64.

(** ** Python strings *)

Module Str.

Local Open Scope char_scope.

(** [c.isspace()] on ASCII: tab, line feed, vertical tab, form feed,
    carriage return, the four separators 28 to 31 and the space. *)
Definition isspace (c : ascii) : bool :=
  let n := nat_of_ascii c in
  ((9 <=? n) && (n <=? 13) || (28 <=? n) && (n <=? 32))%nat.

Definition isdigit (c : ascii) : bool :=
  let n := nat_of_ascii c in ((48 <=? n) && (n <=? 57))%nat.

Definition digit_value (c : ascii) : Z := Z.of_nat (nat_of_ascii c - 48).

Definition lower (c : ascii) : ascii :=
  let n := nat_of_ascii c in
  if ((65 <=? n) && (n <=? 90))%nat then ascii_of_nat (n + 32) else c.

(** [s.split(sep)] for a separator of one character: the pieces between
    the occurrences of [sep], empty pieces included. *)
Fixpoint split_on (sep : ascii) (s : string) : list string :=
  match s with
  | EmptyString => [EmptyString]
  | String c s' =>
      if Ascii.eqb c sep then EmptyString :: split_on sep s'
      else match split_on sep s' with
           | p :: ps => String c p :: ps
           | [] => [String c EmptyString]
           end
  end.

(** [s.split()]: the maximal runs of characters that are not white space. *)
Fixpoint split (s : string) : list string :=
  match s with
  | EmptyString => []
  | String c s' =>
      if isspace c then split s'
      else match s' with
           | EmptyString => [String c EmptyString]
           | String c' _ =>
               if isspace c' then String c EmptyString :: split s'
               else match split s' with
                    | w :: ws => String c w :: ws
                    | [] => [String c EmptyString]
                    end
           end
  end.

(** [l[i]] for [i >= 0]. *)
Definition getitem {A : Type} (l : list A) (i : nat) : result A :=
  match nth_error l i with
  | Some x => ok x
  | None => raise IndexError
  end.

(** [l[-1]]. *)
Definition getitem_last {A : Type} (l : list A) : result A :=
  getitem (rev l) 0.

Fixpoint lstrip (s : list ascii) : list ascii :=
  match s with
  | c :: s' => if isspace c then lstrip s' else s
  | [] => []
  end.

Definition strip (s : list ascii) : list ascii := rev (lstrip (rev (lstrip s))).

(** An optional sign; [true] stands for [-]. *)
Definition sign (s : list ascii) : bool * list ascii :=
  match s with
  | "-" :: s' => (true, s')
  | "+" :: s' => (false, s')
  | _ => (false, s)
  end.

(** The longest prefix of [s] made of digits, where one underscore may
    stand between two digits; with the rest of [s]. *)
Fixpoint digits_prefix (s : list ascii) : list ascii * list ascii :=
  match s with
  | c :: s' =>
      if isdigit c then
        let (ds, r) := digits_prefix s' in (c :: ds, r)
      else if Ascii.eqb c "_" then
        match s' with
        | c' :: s'' =>
            if isdigit c' then
              let (ds, r) := digits_prefix s'' in (c' :: ds, r)
            else ([], s)
        | [] => ([], s)
        end
      else ([], s)
  | [] => ([], [])
  end.

(** [digitpart ::= digit (["_"] digit)*]. *)
Definition digitpart (s : list ascii) : option (list ascii * list ascii) :=
  match s with
  | c :: _ => if isdigit c then Some (digits_prefix s) else None
  | [] => None
  end.

(** [number ::= [digitpart] "." digitpart | digitpart ["."]]: the digits
    before the point, those after it, and the rest. *)
Definition number (s : list ascii) : option (list ascii * list ascii * list ascii) :=
  match digitpart s with
  | Some (ip, r) =>
      match r with
      | "." :: r' =>
          match digitpart r' with
          | Some (fp, r'') => Some (ip, fp, r'')
          | None => Some (ip, [], r')
          end
      | _ => Some (ip, [], r)
      end
  | None =>
      match s with
      | "." :: r' =>
          match digitpart r' with
          | Some (fp, r'') => Some ([], fp, r'')
          | None => None
          end
      | _ => None
      end
  end.

Definition digits_value (ds : list ascii) : Z :=
  fold_left (fun acc c => 10 * acc + digit_value c) ds 0%Z.

(** [exponent ::= ("e" | "E") [sign] digitpart], up to the end of the
    text; no exponent at all counts as exponent 0. *)
Definition exponent (s : list ascii) : option Z :=
  match s with
  | [] => Some 0%Z
  | c :: s' =>
      if Ascii.eqb (lower c) "e" then
        let (neg, r) := sign s' in
        match digitpart r with
        | Some (ds, []) => Some (if neg then (- digits_value ds)%Z else digits_value ds)
        | _ => None
        end
      else None
  end.

(** [float(s)] for a string: white space around the text is dropped; the
    text is an optional sign followed by [inf], [infinity] or [nan] in any
    case, or by a decimal number with an optional exponent.  The value is
    the binary64 number nearest to the decimal; anything else raises
    [ValueError]. *)
Definition float_of_str (s : string) : result float :=
  let (neg, r) := sign (strip (list_ascii_of_string s)) in
  let word := string_of_list_ascii (map lower r) in
  if (word =? "inf")%string || (word =? "infinity")%string then ok (S754_infinity neg)
  else if (word =? "nan")%string then ok S754_nan
  else
    match number r with
    | Some (ip, fp, r') =>
        match exponent r' with
        | Some e =>
            ok (of_decimal neg (digits_value (ip ++ fp)%list)
                           (e - Z.of_nat (List.length fp)))
        | None => raise ValueError
        end
    | None => raise ValueError
    end.

End Str.

(** ** pandas frames and series *)

Module Pandas.

(** [col >= k] and [col <= k] on an integer column. *)
Definition ge_int (col : list Z) (k : Z) : list bool := map (fun v => k <=? v) col.
Definition le_int (col : list Z) (k : Z) : list bool := map (fun v => v <=? k) col.

(** [col >= k] and [col <= k] on a float64 column, [k] a Python integer:
    NumPy converts [k] to float64 and compares as IEEE 754 does, so that a
    comparison with [nan] is [False]. *)
Definition ge_float (col : list float) (k : Z) : list bool :=
  map (fun v => leb (of_int k) v) col.
Definition le_float (col : list float) (k : Z) : list bool :=
  map (fun v => leb v (of_int k)) col.

(** [col == k], where [k] may be [None], which equals no cell. *)
Definition eq_int (col : list Z) (k : option Z) : list bool :=
  map (fun v => match k with Some i => v =? i | None => false end) col.

(** [a & b] on boolean series. *)
Definition band (a b : list bool) : list bool :=
  map (fun p => fst p && snd p) (combine a b).

(** [df[mask]]: the rows whose mask cell is [True], in the order of [df].
    The masks of the script are computed from the columns of [df] itself,
    hence have its length. *)
Fixpoint getitem_mask {A : Type} (df : list A) (mask : list bool) : list A :=
  match df, mask with
  | r :: df', b :: mask' =>
      if b then r :: getitem_mask df' mask' else getitem_mask df' mask'
  | _, _ => []
  end.

(** [df.iloc[i]] for [i >= 0]: the row at position [i], [IndexError] when
    there is none. *)
Definition iloc {A : Type} (df : list A) (i : nat) : result A := Str.getitem df i.

(** [int(col.min())] and [int(col.max())] on an int64 column: the minimum
    of an empty column is [nan], which [int] refuses. *)
Definition int_min_int (col : list Z) : result Z :=
  match col with
  | [] => raise ValueError
  | x :: l => ok (fold_left Z.min l x)
  end.

Definition int_max_int (col : list Z) : result Z :=
  match col with
  | [] => raise ValueError
  | x :: l => ok (fold_left Z.max l x)
  end.

(** [col.min()] and [col.max()] on a float64 column skip the [nan] cells
    and are [nan] when nothing is left. *)
Definition fmin (x y : float) : float := if ltb y x then y else x.
Definition fmax (x y : float) : float := if ltb x y then y else x.

Definition series_min (col : list float) : float :=
  match filter (fun v => negb (is_nan v)) col with
  | [] => S754_nan
  | x :: l => fold_left fmin l x
  end.

Definition series_max (col : list float) : float :=
  match filter (fun v => negb (is_nan v)) col with
  | [] => S754_nan
  | x :: l => fold_left fmax l x
  end.

End Pandas.

Import Pandas.

(** ** The catalog (LOAD DATA) *)

(** Modelled from the spec: the columns of [data/clients.csv], a data file
    that is not among the sources, with the types that section 3 of the
    specification gives them: [age], [anciennete] and [nb_incidents] are
    integer columns, [revenu] and [score_credit] float columns. *)
Record Row : Type := {
  csv_age : Z;
  csv_revenu : float;
  csv_anciennete : Z;
  csv_nb_incidents : Z;
  csv_score_credit : float
}.

(** A row of [clients]: the columns of the file and the [client_id] that
    line 16 adds. *)
Record Client : Type := {
  client_id : Z;
  age : Z;
  revenu : float;
  anciennete : Z;
  nb_incidents : Z;
  score_credit : float
}.

(** [pd.read_csv(path)]: the rows of the file, or [FileNotFoundError]. *)
Definition read_csv (file : option (list Row)) : result (list Row) :=
  match file with
  | Some rows => ok rows
  | None => raise FileNotFoundError
  end.

(** [df.reset_index()]: the index of a frame just read is the range
    0, 1, ..., n-1; it becomes the first column, called [index]. *)
Definition reset_index (df : list Row) : list (Z * Row) :=
  combine (map Z.of_nat (seq 0 (List.length df))) df.

(** [df.rename(columns = {"index": "client_id"})]. *)
Definition rename_index (df : list (Z * Row)) : list Client :=
  map (fun ir =>
         {| client_id := fst ir;
            age := csv_age (snd ir);
            revenu := csv_revenu (snd ir);
            anciennete := csv_anciennete (snd ir);
            nb_incidents := csv_nb_incidents (snd ir);
            score_credit := csv_score_credit (snd ir) |}) df.

(** Line 16. *)
Definition load_clients (file : option (list Row)) : result (list Client) :=
  rbind (read_csv file) (fun df => ok (rename_index (reset_index df))).

(** The columns of a client that come from the file. *)
Definition row_of (c : Client) : Row :=
  {| csv_age := age c;
     csv_revenu := revenu c;
     csv_anciennete := anciennete c;
     csv_nb_incidents := nb_incidents c;
     csv_score_credit := score_credit c |}.

(** ** The filters (SIDEBAR FILTERS) *)

(** The bounds a range slider works with: Streamlit orders [min_value]
    and [max_value] and widens them so that they hold the default
    [value]. *)
Definition slider_bounds (min_value max_value : Z) (value : Z * Z) : Z * Z :=
  let lo := Z.min min_value max_value in
  let hi := Z.max lo max_value in
  (Z.min (fst value) lo, Z.max (snd value) hi).

(** The integers that JavaScript holds exactly. *)
Definition safe_integer (z : Z) : bool :=
  (- (2 ^ 53 - 1) <=? z) && (z <=? 2 ^ 53 - 1).

(** A range that the slider lets the user set: a pair within its
    bounds. *)
Definition offered (bounds range : Z * Z) : Prop :=
  fst bounds <= fst range /\ fst range <= snd range /\ snd range <= snd bounds.

(** The check that the slider makes of its bounds, once widened. *)
Definition validate_int_bounds (min_value max_value : Z) (value : Z * Z) : bool :=
  let bounds := slider_bounds min_value max_value value in
  safe_integer (fst bounds) && safe_integer (snd bounds).

(** [st.sidebar.slider(label, min_value, max_value, value)] for a range of
    integers: [StreamlitJSNumberBoundsError] when a bound is no safe
    integer; otherwise the pair the user has set, and [value] itself as
    long as the slider was not touched. *)
Definition slider (min_value max_value : Z) (value : Z * Z) (set : option (Z * Z))
  : result (Z * Z) :=
  if validate_int_bounds min_value max_value value then
    ok (match set with
        | Some v => v
        | None => value
        end)
  else raise StreamlitJSNumberBoundsError.

(** The bounds that lines 23 to 25 give to the three sliders. *)
Definition age_bounds (clients : list Client) : result (Z * Z) :=
  rbind (int_min_int (map age clients)) (fun lo =>
  rbind (int_max_int (map age clients)) (fun hi => ok (lo, hi))).

Definition income_bounds (clients : list Client) : result (Z * Z) :=
  rbind (to_int (series_min (map revenu clients))) (fun lo =>
  rbind (to_int (series_max (map revenu clients))) (fun hi => ok (lo, hi))).

Definition incident_bounds (clients : list Client) : result (Z * Z) :=
  rbind (int_min_int (map nb_incidents clients)) (fun lo =>
  rbind (int_max_int (map nb_incidents clients)) (fun hi => ok (lo, hi))).

(** Lines 27 to 31: six masks, joined with [&], select the rows. *)
Definition filtered_clients (clients : list Client)
  (age_filter income_filter incident_filter : Z * Z) : list Client :=
  getitem_mask clients
    (band (band (band (band (band
       (ge_int (map age clients) (fst age_filter))
       (le_int (map age clients) (snd age_filter)))
       (ge_float (map revenu clients) (fst income_filter)))
       (le_float (map revenu clients) (snd income_filter)))
       (ge_int (map nb_incidents clients) (fst incident_filter)))
       (le_int (map nb_incidents clients) (snd incident_filter))).

(** ** The selection (CLIENT SELECTION) *)

(** [st.selectbox(label, options)]: the option the user picked, the first
    one as long as nothing was picked; [None] when there is no option. *)
Definition selectbox (options : list Z) (picked : option nat) : option Z :=
  match picked with
  | Some i =>
      match nth_error options i with
      | Some o => Some o
      | None => hd_error options
      end
  | None => hd_error options
  end.

(** Line 39.  The result is the record of the frame, with its cells as
    the frame has them. *)
Definition client (filtered_clients : list Client) (selected_client_id : option Z) : result Client :=
  iloc (getitem_mask filtered_clients
          (eq_int (map client_id filtered_clients) selected_client_id)) 0.

(** [.iloc[0]] gives the row as one Series.  The frame has int64 and
    float64 columns, so the dtype of that Series is float64 and an integer
    cell comes back as the nearest float: [as_float64 z] is what [int()]
    then makes of it. *)
Definition as_float64 (z : Z) : result Z := to_int (of_int z).

(** ** The scoring request (API CALL) *)

(** The values of the JSON body: Python integers and floats. *)
Inductive pyval : Type :=
| py_int (z : Z)
| py_float (x : float).

(** [int(v)] for a cell that holds the integer [v] and [float(v)] for a
    float64 cell: the Python number of the same value. *)
Definition int_of_int64 (v : Z) : pyval := py_int v.
Definition float_of_float64 (v : float) : pyval := py_float v.

(** A Python [dict] with string keys, in insertion order. *)
Definition dict : Type := list (string * pyval).

(** Lines 47 to 53. *)
Definition payload (client : Client) : dict :=
  [ ("age", int_of_int64 (age client));
    ("revenu", float_of_float64 (revenu client));
    ("anciennete", int_of_int64 (anciennete client));
    ("nb_incidents", int_of_int64 (nb_incidents client));
    ("score_credit", float_of_float64 (score_credit client)) ].

Definition API_URL : string := "https://dashboard-neo-bank.onrender.com/predict".

(** The JSON object the service answers, in the shape of its contract:
    [score] is a number and [explanations] a list of strings, and both
    keys are optional.  Bodies of another shape are outside the model. *)
Record Resp : Type := {
  resp_score : option float;
  resp_explanations : option (list string)
}.

(** An HTTP response: its status code and its body, [None] when the body
    is not JSON. *)
Record Response : Type := {
  status_code : Z;
  body : option Resp
}.

(** How [requests.post] can fail to bring a response back. *)
Inductive failure : Type :=
| connection_error
| timed_out.

Definition exn_of_failure (f : failure) : exn :=
  match f with
  | connection_error => ConnectionError
  | timed_out => Timeout
  end.

(** What one call of [requests.post] meets. *)
Inductive outcome : Type :=
| no_response (f : failure)
| response (r : Response).

(** [r.raise_for_status()]: [HTTPError] for the status codes 400 to 599. *)
Definition raise_for_status (r : Response) : result unit :=
  if (400 <=? status_code r) && (status_code r <? 600) then raise HTTPError else ok tt.

(** [r.json()]. *)
Definition json (r : Response) : result Resp :=
  match body r with
  | Some resp => ok resp
  | None => raise JSONDecodeError
  end.

(** [resp.get(key, default)]. *)
Definition get {A : Type} (field : option A) (default : A) : A :=
  match field with
  | Some v => v
  | None => default
  end.

(** ** What a run does *)

(** The effects of a run that the properties are about: the request sent
    and the elements written on the page whose content depends on the
    data.  The titles and headers, which are constant, and the widgets
    themselves (the three sliders, the select box, the button), whose
    values the session holds, are not among them. *)
Inductive effect : Type :=
| st_error_introuvable
| sidebar_clients_filtres (n : nat)
| requests_post (url : string) (json : dict) (timeout : Z)
| st_error_api (e : exn)
| plotly_gauge (value : float)
| st_success_eligible
| st_warning_potentiellement_eligible
| st_error_non_eligible
| st_info_cliquez
| st_table_client (c : Client)
| plotly_radar (r : list float) (theta : list string)
| markdown_facteur (name direction color : string) (magnitude : float)
| st_dataframe (view : list Client).

(** A computation that has effects and may raise: the effects so far are
    kept when it raises. *)
Definition M (A : Type) : Type := (list effect * result A)%type.

Definition ret {A : Type} (a : A) : M A := ([], ok a).

Definition bind {A B : Type} (m : M A) (k : A -> M B) : M B :=
  match m with
  | (w, inl e) => (w, inl e)
  | (w, inr a) => let (w', r) := k a in (w ++ w', r)
  end.

Definition do (e : effect) : M unit := ([e], ok tt).

Definition lift {A : Type} (r : result A) : M A := ([], r).

(** [try: body except Exception as e: handler(e)]. *)
Definition try_except {A : Type} (body : M A) (handler : exn -> M A) : M A :=
  match body with
  | (w, inl e) =>
      if is_Exception e then let (w', r) := handler e in (w ++ w', r) else (w, inl e)
  | (w, inr a) => (w, inr a)
  end.

Notation "x <- m ;; k" := (bind m (fun x => k))
  (at level 61, m at next level, right associativity).
Notation "m ;;; k" := (bind m (fun _ => k))
  (at level 61, right associativity).

(** [for x in l: body(x)]. *)
Fixpoint for_each {A : Type} (l : list A) (body : A -> M unit) : M unit :=
  match l with
  | [] => ret tt
  | x :: l' => body x ;;; for_each l' body
  end.

Definition effects {A : Type} (m : M A) : list effect := fst m.
Definition outcome_of {A : Type} (m : M A) : result A := snd m.

(** Lines 58 and 59: what the script reads in the answer, [score] and
    [shap_factors]. *)
Definition interpret (resp : Resp) : option float * list string :=
  (resp_score resp, get (resp_explanations resp) []).

(** Lines 55 to 59, the body of the [try]. *)
Definition try_body (post : dict -> outcome) (payload : dict)
  : M (option float * list string) :=
  do (requests_post API_URL payload 10) ;;;
  r <- lift (match post payload with
             | no_response f => raise (exn_of_failure f)
             | response r => ok r
             end) ;;
  lift (raise_for_status r) ;;;
  resp <- lift (json r) ;;
  ret (interpret resp).

(** Lines 43 to 61: [score] and [shap_factors] start as [None] and [[]];
    the button triggers the call; an exception leaves them as they are. *)
Definition api_call (button : bool) (post : dict -> outcome) (client : Client)
  : M (option float * list string) :=
  if button then
    try_except (try_body post (payload client))
               (fun e => do (st_error_api e) ;;; ret (None, []))
  else ret (None, []).

(** ** The score (SCORE GAUGE) *)

(** The float literals [0.8] and [0.5]. *)
Definition lit_0_8 : float := of_decimal false 8 (-1).
Definition lit_0_5 : float := of_decimal false 5 (-1).

(** Lines 69 to 93. *)
Definition score_gauge (score : option float) : M unit :=
  match score with
  | Some score =>
      do (plotly_gauge (mul score (of_int 100))) ;;;
      if leb lit_0_8 score then do st_success_eligible
      else if leb lit_0_5 score then do st_warning_potentiellement_eligible
      else do st_error_non_eligible
  | None => do st_info_cliquez
  end.

(** ** The factors (SHAP FACTORS RADAR) *)

(** [f.split("'")[1]], the feature name of an explanation. *)
Definition feature (f : string) : result string :=
  Str.getitem (Str.split_on "'"%char f) 1.

(** [float(f.split()[-1])], its contribution. *)
Definition contribution (f : string) : result float :=
  rbind (Str.getitem_last (Str.split f)) Str.float_of_str.

(** [max(xs)]: the first of the largest items, as [>] sees them;
    [ValueError] on an empty sequence. *)
Fixpoint max_from (maxitem : float) (xs : list float) : float :=
  match xs with
  | [] => maxitem
  | item :: xs' => max_from (if ltb maxitem item then item else maxitem) xs'
  end.

Definition py_max (xs : list float) : result float :=
  match xs with
  | [] => raise ValueError
  | x :: xs' => ok (max_from x xs')
  end.

(** Line 110: [max(abs(np.array(contributions))) or 1].  The integer 1
    divides a float as the float 1.0 does. *)
Definition max_val (contributions : list float) : result float :=
  rbind (py_max (map abs contributions)) (fun m =>
  ok (if truthy m then m else one)).

(** Line 111. *)
Definition contributions_norm (contributions : list float) (max_val : float) : list float :=
  map (fun c => div c max_val) contributions.

(** Lines 130 and 131. *)
Definition direction (value : float) : string :=
  if ltb value (of_int 0) then "réduit le risque" else "augmente le risque".

Definition color (value : float) : string :=
  if ltb value (of_int 0) then "#4CAF50" else "#F44336".

(** Lines 105 to 132. *)
Definition shap_factors_radar (score : option float) (shap_factors : list string) : M unit :=
  match score, shap_factors with
  | Some _, _ :: _ =>
      features <- lift (comprehension feature shap_factors) ;;
      contributions <- lift (comprehension contribution shap_factors) ;;
      max_val <- lift (max_val contributions) ;;
      do (plotly_radar (map abs (contributions_norm contributions max_val)) features) ;;;
      for_each shap_factors (fun f =>
        name <- lift (feature f) ;;
        value <- lift (contribution f) ;;
        do (markdown_facteur name (direction value) (color value) (abs value)))
  | _, _ => ret tt
  end.

(** ** The script *)

(** What the user and the world bring to one run of the script. *)
Record Session : Type := {
  file : option (list Row);
  age_slider : option (Z * Z);
  income_slider : option (Z * Z);
  incident_slider : option (Z * Z);
  picked : option nat;
  button : bool;
  post : dict -> outcome
}.

(** Lines 15 to 19. *)
Definition load_data (s : Session) : M (list Client) :=
  match load_clients (file s) with
  | inl FileNotFoundError => do st_error_introuvable ;;; lift (raise StopException)
  | r => lift r
  end.

(** Lines 23 to 25. *)
Definition sidebar_filters (s : Session) (clients : list Client)
  : M ((Z * Z) * (Z * Z) * (Z * Z)) :=
  a <- lift (age_bounds clients) ;;
  age_filter <- lift (slider (fst a) (snd a) (18, 70) (age_slider s)) ;;
  i <- lift (income_bounds clients) ;;
  income_filter <- lift (slider (fst i) (snd i) (1000, 100000) (income_slider s)) ;;
  n <- lift (incident_bounds clients) ;;
  incident_filter <- lift (slider (fst n) (snd n) (0, 10) (incident_slider s)) ;;
  ret (age_filter, income_filter, incident_filter).

(** Lines 41 to 136, the script once a client is selected. *)
Definition scoring (s : Session) (filtered_clients : list Client) (client : Client) : M unit :=
  answer <- api_call (button s) (post s) client ;;
  let '(score, shap_factors) := answer in
  score_gauge score ;;;
  do (st_table_client client) ;;;
  shap_factors_radar score shap_factors ;;;
  do (st_dataframe filtered_clients).

(** Lines 21 to 136, the script once the catalog is loaded. *)
Definition page (s : Session) (clients : list Client) : M unit :=
  filters <- sidebar_filters s clients ;;
  let '(age_filter, income_filter, incident_filter) := filters in
  let filtered_clients := filtered_clients clients age_filter income_filter incident_filter in
  do (sidebar_clients_filtres (List.length filtered_clients)) ;;;
  let selected_client_id := selectbox (map client_id filtered_clients) (picked s) in
  client <- lift (client filtered_clients selected_client_id) ;;
  scoring s filtered_clients client.

Definition streamlit_app (s : Session) : M unit :=
  clients <- load_data s ;;
  page s clients.

(** ** The notions the specification uses *)

(** [min <= value <= max] for an integer attribute and for a float one;
    the float is compared as the script compares it, with the bound
    converted to float64. *)
Definition within (range : Z * Z) (value : Z) : Prop :=
  fst range <= value <= snd range.

Definition within_float (range : Z * Z) (value : float) : Prop :=
  leb (of_int (fst range)) value = true /\ leb value (of_int (snd range)) = true.

(** A record satisfies the three inclusive ranges. *)
Definition satisfies (age_range income_range incident_range : Z * Z) (c : Client) : Prop :=
  within age_range (age c) /\
  within_float income_range (revenu c) /\
  within incident_range (nb_incidents c).

Definition satisfiesb (age_range income_range incident_range : Z * Z) (c : Client) : bool :=
  (fst age_range <=? age c) && (age c <=? snd age_range) &&
  leb (of_int (fst income_range)) (revenu c) && leb (revenu c) (of_int (snd income_range)) &&
  (fst incident_range <=? nb_incidents c) && (nb_incidents c <=? snd incident_range).

(** The number of elements of [l] that pass [p]. *)
Fixpoint count {A : Type} (p : A -> bool) (l : list A) : nat :=
  match l with
  | [] => 0%nat
  | x :: l' => if p x then S (count p l') else count p l'
  end.

(** [l1] is made of elements of [l2], in the order of [l2]. *)
Inductive subsequence {A : Type} : list A -> list A -> Prop :=
| subsequence_nil : subsequence [] []
| subsequence_skip x l1 l2 : subsequence l1 l2 -> subsequence l1 (x :: l2)
| subsequence_keep x l1 l2 : subsequence l1 l2 -> subsequence (x :: l1) (x :: l2).

(** The type of a Python number. *)
Inductive pytype : Type :=
| type_int
| type_float.

Definition type_of (v : pyval) : pytype :=
  match v with
  | py_int _ => type_int
  | py_float _ => type_float
  end.

(** [d[key]] for a key of [d]. *)
Fixpoint lookup (key : string) (d : dict) : option pyval :=
  match d with
  | [] => None
  | (k, v) :: d' => if (k =? key)%string then Some v else lookup key d'
  end.

(** The last token of the explanation is not a number: [float] refuses
    it. *)
Definition non_numeric_token (f : string) : Prop :=
  exists token, Str.getitem_last (Str.split f) = ok token /\
                Str.float_of_str token = raise ValueError.

(** The text ends with a token that [float] accepts. *)
Definition numeric_token (f : string) : Prop :=
  exists token value, Str.getitem_last (Str.split f) = ok token /\
                      Str.float_of_str token = ok value.

(** The factor that the summary draws for a well-formed explanation. *)
Definition facteur (name : string) (value : float) : effect :=
  markdown_facteur name (direction value) (color value) (abs value).

(** The request failed: no response came back, or one with an error
    status. *)
Definition call_failed (o : outcome) : Prop :=
  match o with
  | no_response _ => True
  | response r => 400 <= status_code r < 600
  end.

(** The answer [{}]. *)
Definition empty_resp : Resp := {| resp_score := None; resp_explanations := None |}.

(** ** Sample data *)

Module Sample.

(** A catalog of three clients, aged 20, 40 and 60. *)
Definition rows : list Row :=
  [ {| csv_age := 20; csv_revenu := of_decimal false 300005 (-1);
       csv_anciennete := 2; csv_nb_incidents := 0;
       csv_score_credit := of_decimal false 5 (-1) |};
    {| csv_age := 40; csv_revenu := of_int 50000;
       csv_anciennete := 5; csv_nb_incidents := 1;
       csv_score_credit := of_decimal false 7 (-1) |};
    {| csv_age := 60; csv_revenu := of_decimal false 1000005 (-1);
       csv_anciennete := 9; csv_nb_incidents := 3;
       csv_score_credit := of_decimal false 2 (-1) |} ].

Definition clients : list Client := rename_index (reset_index rows).

(** A service that answers every request in the same way. *)
Definition answers (o : outcome) : dict -> outcome := fun _ => o.

(** A session on [rows] with the sliders untouched and the button pressed. *)
Definition session (o : outcome) : Session :=
  {| file := Some rows;
     age_slider := None; income_slider := None; incident_slider := None;
     picked := None; button := true; post := answers o |}.

(** The same with the income slider set to (60000, 90000), a range within
    its bounds that holds no client. *)
Definition session_no_match : Session :=
  {| file := Some rows;
     age_slider := None; income_slider := Some (60000, 90000); incident_slider := None;
     picked := None; button := true; post := answers (no_response timed_out) |}.

(** The first client of [clients], and the view that the untouched
    sliders give. *)
Definition client_0 : Client :=
  {| client_id := 0; age := 20; revenu := of_decimal false 300005 (-1);
     anciennete := 2; nb_incidents := 0; score_credit := of_decimal false 5 (-1) |}.

Definition client_2 : Client :=
  {| client_id := 2; age := 60; revenu := of_decimal false 1000005 (-1);
     anciennete := 9; nb_incidents := 3; score_credit := of_decimal false 2 (-1) |}.

Definition view : list Client :=
  filtered_clients clients (18, 70) (1000, 100000) (0, 10).

(** A response with status 300 and the body [{"score": 0.5}]. *)
Definition multiple_choices : Response :=
  {| status_code := 300;
     body := Some {| resp_score := Some lit_0_5; resp_explanations := None |} |}.

(** The contributions -0.10 and 0.30. *)
Definition minus_0_10 : float := of_decimal true 10 (-2).
Definition plus_0_30 : float := of_decimal false 30 (-2).
Definition plus_0_10 : float := of_decimal false 10 (-2).

(** A second catalog, whose largest income, 80000.5, is below the upper
    end of the default income range and is not in the last row. *)
Definition rows_b : list Row :=
  [ {| csv_age := 20; csv_revenu := of_decimal false 300005 (-1);
       csv_anciennete := 2; csv_nb_incidents := 0;
       csv_score_credit := of_decimal false 5 (-1) |};
    {| csv_age := 40; csv_revenu := of_decimal false 800005 (-1);
       csv_anciennete := 5; csv_nb_incidents := 1;
       csv_score_credit := of_decimal false 7 (-1) |};
    {| csv_age := 60; csv_revenu := of_int 50000;
       csv_anciennete := 9; csv_nb_incidents := 3;
       csv_score_credit := of_decimal false 2 (-1) |} ].

Definition clients_b : list Client := rename_index (reset_index rows_b).

(** Its richest client. *)
Definition client_b1 : Client :=
  {| client_id := 1; age := 40; revenu := of_decimal false 800005 (-1);
     anciennete := 5; nb_incidents := 1; score_credit := of_decimal false 7 (-1) |}.

(** A session on [rows_b] with nothing touched. *)
Definition session_b : Session :=
  {| file := Some rows_b;
     age_slider := None; income_slider := None; incident_slider := None;
     picked := None; button := false; post := answers (no_response timed_out) |}.

(** An answer with a score and two explanations, the second without any
    apostrophe. *)
Definition unreadable_answer : Response :=
  {| status_code := 200;
     body := Some {| resp_score := Some lit_0_8;
                     resp_explanations :=
                       Some ["'age' contributes 0.42"; "oops 0.1"] |} |}.

End Sample.

(** ** Notions for the properties of a whole run *)

(** The effect is a request to the scoring service. *)
Definition is_request (e : effect) : bool :=
  match e with
  | requests_post _ _ _ => true
  | _ => false
  end.

(** The float is a number: a zero or a finite value, not [nan] nor an
    infinity. *)
Definition is_finite (x : float) : bool :=
  match x with
  | S754_zero _ | S754_finite _ _ _ => true
  | _ => false
  end.

(** The float is a value of binary64, with its mantissa and exponent in
    the one form the format has for it; such is every cell read from a
    file. *)
Definition is_binary64 (x : float) : bool := valid_binary prec emax x.

(** The text holds no quote character. *)
Definition no_quote (s : string) : Prop :=
  ~ In "'"%char (list_ascii_of_string s).

(** The text is ASCII: each of its characters is below 128. *)
Definition is_ascii (s : string) : Prop :=
  forallb (fun c => (nat_of_ascii c <? 128)%nat) (list_ascii_of_string s) = true.

(** The text is a token: it is not empty, it is ASCII and it holds no
    white space. *)
Definition is_token (s : string) : Prop :=
  s <> EmptyString /\ is_ascii s /\
  forall c, In c (list_ascii_of_string s) -> Str.isspace c = false.

(** An explanation that lines 107 and 108 cannot read: a text without any
    apostrophe, of which [split("'")] makes one piece only, or an ASCII
    text whose last token is not a number. *)
Definition unreadable (f : string) : Prop :=
  no_quote f \/ (is_ascii f /\ non_numeric_token f).

(** The integer cells that the request carries come back from [.iloc[0]]
    as they are in the frame (as every integer up to [2 ^ 53] does). *)
Definition exact_cells (c : Client) : Prop :=
  as_float64 (age c) = ok (age c) /\
  as_float64 (anciennete c) = ok (anciennete c) /\
  as_float64 (nb_incidents c) = ok (nb_incidents c).

(** The ids grow strictly along the frame. *)
Fixpoint increasing (ids : list Z) : Prop :=
  match ids with
  | [] => True
  | x :: ids' => (forall y, In y ids' -> x < y) /\ increasing ids'
  end.

(** The four ways a run can go. *)
Inductive run_shape (s : Session) : Prop :=
| run_no_file :
    file s = None ->
    streamlit_app s = ([st_error_introuvable], raise StopException) ->
    run_shape s
| run_no_bounds rows e :
    file s = Some rows ->
    sidebar_filters s (rename_index (reset_index rows)) = ([], raise e) ->
    streamlit_app s = ([], raise e) ->
    run_shape s
| run_no_client rows a i n :
    file s = Some rows ->
    sidebar_filters s (rename_index (reset_index rows)) = ([], ok (a, i, n)) ->
    filtered_clients (rename_index (reset_index rows)) a i n = [] ->
    streamlit_app s = ([sidebar_clients_filtres 0], raise IndexError) ->
    run_shape s
| run_client rows a i n c :
    file s = Some rows ->
    sidebar_filters s (rename_index (reset_index rows)) = ([], ok (a, i, n)) ->
    client (filtered_clients (rename_index (reset_index rows)) a i n)
           (selectbox (map client_id (filtered_clients (rename_index (reset_index rows)) a i n))
                      (picked s)) = ok c ->
    streamlit_app s =
      (sidebar_clients_filtres
         (List.length (filtered_clients (rename_index (reset_index rows)) a i n))
         :: effects (scoring s (filtered_clients (rename_index (reset_index rows)) a i n) c),
       outcome_of (scoring s (filtered_clients (rename_index (reset_index rows)) a i n) c)) ->
    run_shape s.

(** * Properties *)

(** ** The monad *)

Lemma bind_lift_ok {A B : Type} (a : A) (k : A -> M B) : bind (lift (ok a)) k = k a.
Proof. unfold bind, lift, ok. now destruct (k a). Qed.

Lemma bind_do {B : Type} (e : effect) (k : unit -> M B) :
  bind (do e) k = (e :: effects (k tt), outcome_of (k tt)).
Proof. unfold bind, do, ok. now destruct (k tt). Qed.

(** ** Order of binary64 numbers *)

Ltac float_cases :=
  repeat match goal with
         | x : float |- _ => destruct x as [[|]|[|]| |[|] ? ?]
         end.

Ltac order_cases :=
  repeat match goal with
         | |- context [Z.compare ?a ?b] => destruct (Z.compare_spec a b)
         | |- context [Pos.compare_cont Eq ?a ?b] =>
             change (Pos.compare_cont Eq a b) with (Pos.compare a b);
             destruct (Pos.compare_spec a b)
         end.

Ltac by_float_cases :=
  unfold ltb, leb, SFltb, SFleb, SFcompare; float_cases; simpl; try congruence;
  order_cases; simpl; try congruence; try lia.

Lemma leb_trans (x y z : float) :
  leb x y = true -> leb y z = true -> leb x z = true.
Proof. by_float_cases. Qed.

Lemma leb_refl (x : float) : is_nan x = false -> leb x x = true.
Proof. by_float_cases. Qed.

Lemma ltb_leb (x y : float) : ltb x y = true -> leb x y = true.
Proof. by_float_cases. Qed.

Lemma ltb_not_leb (x y : float) : ltb x y = true -> leb y x = false.
Proof. by_float_cases. Qed.

Lemma not_ltb_leb (x y : float) :
  is_nan x = false -> is_nan y = false -> ltb x y = false -> leb y x = true.
Proof. by_float_cases. Qed.

Lemma leb_abs_zero (x z : float) :
  is_zero x = false -> is_nan x = false -> is_zero z = true -> leb (abs x) z = false.
Proof. unfold abs. by_float_cases. Qed.

Lemma abs_not_nan (x : float) : is_nan x = false -> is_nan (abs x) = false.
Proof. destruct x; simpl; congruence. Qed.

(** ** Masks *)

Lemma band_map {A : Type} (p q : A -> bool) (l : list A) :
  band (map p l) (map q l) = map (fun x => p x && q x) l.
Proof.
  unfold band. induction l as [|x l IH]; simpl; [reflexivity|].
  now rewrite IH.
Qed.

Lemma getitem_mask_map {A : Type} (p : A -> bool) (l : list A) :
  getitem_mask l (map p l) = filter p l.
Proof.
  induction l as [|x l IH]; simpl; [reflexivity|].
  destruct (p x); now rewrite IH.
Qed.

Lemma filtered_clients_filter (clients : list Client) (a i n : Z * Z) :
  filtered_clients clients a i n = filter (satisfiesb a i n) clients.
Proof.
  unfold filtered_clients, ge_int, le_int, ge_float, le_float.
  rewrite !map_map, !band_map. apply getitem_mask_map.
Qed.

Lemma satisfiesb_true (a i n : Z * Z) (c : Client) :
  satisfiesb a i n c = true <-> satisfies a i n c.
Proof.
  unfold satisfiesb, satisfies, within, within_float.
  rewrite !andb_true_iff, !Z.leb_le. tauto.
Qed.

Lemma filter_subsequence {A : Type} (p : A -> bool) (l : list A) :
  subsequence (filter p l) l.
Proof.
  induction l as [|x l IH]; simpl.
  - constructor.
  - destruct (p x); now constructor.
Qed.

Lemma filter_length_count {A : Type} (p : A -> bool) (l : list A) :
  List.length (filter p l) = count p l.
Proof.
  induction l as [|x l IH]; simpl; [reflexivity|].
  destruct (p x); simpl; now rewrite IH.
Qed.

Lemma filter_none {A : Type} (p : A -> bool) (l : list A) :
  (forall x, In x l -> p x = false) -> filter p l = [].
Proof.
  induction l as [|x l IH]; simpl; intros H; [reflexivity|].
  rewrite (H x (or_introl eq_refl)). apply IH. intros y Hy. apply H. now right.
Qed.

(** C1. The filter of lines 27 to 31 returns exactly the catalog records
    that satisfy the three inclusive ranges together, in catalog order: the
    view is the catalog filtered by the conjunction, a subsequence of the
    catalog, and a record is in the view if and only if it is in the
    catalog and each of its three attributes lies within its range; the
    count displayed, [len(filtered_clients)], is the number of catalog
    records that satisfy the ranges; and when no record does, the view is
    the empty frame. *)
Theorem filtered_clients_exact (clients : list Client) (age_filter income_filter incident_filter : Z * Z) :
  let view := filtered_clients clients age_filter income_filter incident_filter in
  view = filter (satisfiesb age_filter income_filter incident_filter) clients /\
  subsequence view clients /\
  (forall c, In c view <->
             In c clients /\ satisfies age_filter income_filter incident_filter c) /\
  List.length view = count (satisfiesb age_filter income_filter incident_filter) clients /\
  ((forall c, In c clients -> ~ satisfies age_filter income_filter incident_filter c) ->
   view = []).
Proof.
  cbv zeta. rewrite filtered_clients_filter.
  split; [reflexivity|]. split; [apply filter_subsequence|].
  split; [|split].
  - intros c. rewrite filter_In, satisfiesb_true. tauto.
  - apply filter_length_count.
  - intros H. apply filter_none. intros c Hc.
    destruct (satisfiesb age_filter income_filter incident_filter c) eqn:E; [|reflexivity].
    apply satisfiesb_true in E. now elim (H c Hc).
Qed.

(** ** The catalog *)

Lemma reset_index_ids (rows : list Row) (k : nat) :
  map fst (combine (map Z.of_nat (seq k (List.length rows))) rows) =
  map Z.of_nat (seq k (List.length rows)).
Proof.
  revert k. induction rows as [|r rows IH]; intros k; simpl; [reflexivity|].
  now rewrite IH.
Qed.

Lemma reset_index_rows (rows : list Row) (k : nat) :
  map snd (combine (map Z.of_nat (seq k (List.length rows))) rows) = rows.
Proof.
  revert k. induction rows as [|r rows IH]; intros k; simpl; [reflexivity|].
  now rewrite IH.
Qed.

Lemma client_ids_of_clients (rows : list Row) :
  map client_id (rename_index (reset_index rows)) =
  map Z.of_nat (seq 0 (List.length rows)).
Proof.
  unfold rename_index, reset_index. rewrite map_map. simpl.
  rewrite <- (reset_index_ids rows 0) at 2. reflexivity.
Qed.

Lemma rows_of_clients (rows : list Row) :
  map row_of (rename_index (reset_index rows)) = rows.
Proof.
  unfold rename_index, reset_index. rewrite map_map.
  transitivity (map snd (combine (map Z.of_nat (seq 0 (List.length rows))) rows)).
  - apply map_ext. intros [k [a r t n sc]]. reflexivity.
  - apply reset_index_rows.
Qed.

Lemma NoDup_map_of_nat (l : list nat) : NoDup l -> NoDup (map Z.of_nat l).
Proof.
  induction 1 as [|x l Hx Hl IH]; simpl; constructor; [|assumption].
  rewrite in_map_iff. intros [y [E Hy]]. apply Nat2Z.inj in E. now subst.
Qed.

Lemma client_ids_NoDup (rows : list Row) :
  NoDup (map client_id (rename_index (reset_index rows))).
Proof.
  rewrite client_ids_of_clients. apply NoDup_map_of_nat, seq_NoDup.
Qed.

Lemma client_id_is_position (rows : list Row) (k : nat) (c : Client) :
  nth_error (rename_index (reset_index rows)) k = Some c -> client_id c = Z.of_nat k.
Proof.
  intros H. apply (map_nth_error client_id) in H.
  rewrite client_ids_of_clients, nth_error_map, nth_error_seq in H.
  destruct (k <? List.length rows)%nat; simpl in H; congruence.
Qed.

Lemma position_of_client (rows : list Row) (c : Client) :
  In c (rename_index (reset_index rows)) ->
  nth_error (rename_index (reset_index rows)) (Z.to_nat (client_id c)) = Some c.
Proof.
  intros H. apply In_nth_error in H. destruct H as [k H].
  rewrite (client_id_is_position _ _ _ H), Nat2Z.id. exact H.
Qed.

(** ** The selection *)

Lemma client_filter (view : list Client) (id : Z) :
  getitem_mask view (eq_int (map client_id view) (Some id)) =
  filter (fun c => client_id c =? id) view.
Proof.
  unfold eq_int. rewrite map_map. apply getitem_mask_map.
Qed.

Lemma client_none (view : list Client) : client view None = raise IndexError.
Proof.
  unfold client, eq_int. rewrite map_map, getitem_mask_map.
  rewrite filter_none; [reflexivity|trivial].
Qed.

Lemma iloc_0 {A : Type} (l : list A) :
  iloc l 0 = match l with [] => raise IndexError | x :: _ => ok x end.
Proof. now destruct l. Qed.

Lemma filter_id_nil (view : list Client) (id : Z) :
  filter (fun c => client_id c =? id) view = [] <-> ~ In id (map client_id view).
Proof.
  induction view as [|x view IH]; simpl; [tauto|].
  destruct (Z.eqb_spec (client_id x) id) as [E|E].
  - split; [discriminate|]. intros H. elim H. now left.
  - rewrite IH. tauto.
Qed.

Lemma filter_id_single (view : list Client) (id : Z) :
  NoDup (map client_id view) -> In id (map client_id view) ->
  exists c, filter (fun c => client_id c =? id) view = [c] /\ client_id c = id /\ In c view.
Proof.
  induction view as [|x view IH]; simpl; intros Hnd Hin; [contradiction|].
  inversion Hnd as [|? ? Hx Hnd']; subst.
  destruct (Z.eqb_spec (client_id x) id) as [E|E].
  - exists x. split; [|auto]. f_equal. apply filter_id_nil. now rewrite <- E.
  - destruct Hin as [Hin|Hin]; [contradiction|].
    destruct (IH Hnd' Hin) as [c [H1 [H2 H3]]]. exists c. auto.
Qed.

Lemma filter_keeps_ids_distinct (keep : Client -> bool) (view : list Client) :
  NoDup (map client_id view) -> NoDup (map client_id (filter keep view)).
Proof.
  intros Hnd. induction view as [|x view IH]; simpl in *; [constructor|].
  inversion Hnd as [|? ? Hx Hl]; subst.
  destruct (keep x); simpl; [constructor|]; auto.
  intros Hin. apply Hx. apply in_map_iff in Hin. destruct Hin as [y [E Hy]].
  apply in_map_iff. exists y. split; [assumption|]. apply filter_In in Hy. tauto.
Qed.

Lemma view_ids_NoDup (rows : list Row) (a i n : Z * Z) :
  NoDup (map client_id (filtered_clients (rename_index (reset_index rows)) a i n)).
Proof.
  rewrite filtered_clients_filter. apply filter_keeps_ids_distinct, client_ids_NoDup.
Qed.

Lemma client_in_view (view : list Client) (id : option Z) (c : Client) :
  client view id = ok c -> In c view.
Proof.
  destruct id as [id|]; [|rewrite client_none; discriminate].
  unfold client. rewrite client_filter, iloc_0.
  destruct (filter _ view) as [|x l] eqn:E; [discriminate|].
  intros H. injection H as <-.
  assert (Hx : In x (filter (fun c => client_id c =? id) view)) by (rewrite E; now left).
  apply filter_In in Hx. tauto.
Qed.

(** The script has no handler around line 39: an exception raised there
    ends the run, after the count of the side bar. *)
Lemma page_selection_raises (s : Session) (clients : list Client) (a i n : Z * Z) (e : exn) :
  sidebar_filters s clients = ([], ok (a, i, n)) ->
  client (filtered_clients clients a i n)
         (selectbox (map client_id (filtered_clients clients a i n)) (picked s)) = raise e ->
  page s clients =
  ([sidebar_clients_filtres (List.length (filtered_clients clients a i n))], raise e).
Proof.
  intros Hf Hc. unfold page. rewrite Hf. unfold bind at 1. simpl.
  unfold lift. rewrite Hc. reflexivity.
Qed.

Lemma streamlit_app_loaded (s : Session) (rows : list Row) :
  file s = Some rows -> streamlit_app s = page s (rename_index (reset_index rows)).
Proof.
  intros H. unfold streamlit_app, load_data, load_clients. rewrite H. simpl.
  destruct (page s _). reflexivity.
Qed.

(** C9. After a successful load, the [client_id] of every record is its
    position in load order (the ids are 0, 1, ..., n-1 down the catalog and
    the other columns are those of the file), the ids are pairwise
    distinct, and they stay what they are as long as the catalog is used:
    every record of a filtered view, and the record that the selection
    resolves, is the catalog record found at the position its id gives. *)
Theorem client_id_is_load_position (rows : list Row) :
  exists clients,
    load_clients (Some rows) = ok clients /\
    map client_id clients = map Z.of_nat (seq 0 (List.length rows)) /\
    map row_of clients = rows /\
    (forall k c, nth_error clients k = Some c -> client_id c = Z.of_nat k) /\
    NoDup (map client_id clients) /\
    (forall c1 c2, In c1 clients -> In c2 clients ->
                   client_id c1 = client_id c2 -> c1 = c2) /\
    (forall a i n c, In c (filtered_clients clients a i n) ->
                     nth_error clients (Z.to_nat (client_id c)) = Some c) /\
    (forall a i n id c, client (filtered_clients clients a i n) id = ok c ->
                        nth_error clients (Z.to_nat (client_id c)) = Some c).
Proof.
  exists (rename_index (reset_index rows)).
  assert (Hview : forall a i n c,
             In c (filtered_clients (rename_index (reset_index rows)) a i n) ->
             nth_error (rename_index (reset_index rows)) (Z.to_nat (client_id c)) = Some c).
  { intros a i n c H. rewrite filtered_clients_filter in H. apply filter_In in H.
    apply position_of_client. tauto. }
  split; [reflexivity|].
  split; [apply client_ids_of_clients|].
  split; [apply rows_of_clients|].
  split; [apply client_id_is_position|].
  split; [apply client_ids_NoDup|].
  split; [|split].
  - intros c1 c2 H1 H2 E.
    apply position_of_client in H1. apply position_of_client in H2.
    rewrite E in H1. congruence.
  - exact Hview.
  - intros a i n id c H. apply (Hview a i n). now apply client_in_view in H.
Qed.

(** C2, as the script has it.  For every filtered view of a loaded catalog
    and every [client_id], line 39 raises [IndexError] if and only if the
    id is absent from the ids of the view; otherwise it returns a record
    of that id, the only one of the view.  The failure is not handled:
    when the selection raises (as it does on an empty view, where the
    select box yields [None]), the exception leaves the script, and the
    run ends there with nothing drawn after the count of the side bar. *)
Theorem client_IndexError_iff_absent (rows : list Row) (a i n : Z * Z) (id : Z) :
  let clients := rename_index (reset_index rows) in
  let view := filtered_clients clients a i n in
  (client view (Some id) = raise IndexError <-> ~ In id (map client_id view)) /\
  (In id (map client_id view) ->
   exists c, client view (Some id) = ok c /\ client_id c = id /\ In c view /\
             getitem_mask view (eq_int (map client_id view) (Some id)) = [c]) /\
  client view None = raise IndexError /\
  (forall s, file s = Some rows ->
             sidebar_filters s clients = ([], ok (a, i, n)) ->
             client view (selectbox (map client_id view) (picked s)) = raise IndexError ->
             streamlit_app s =
             ([sidebar_clients_filtres (List.length view)], raise IndexError)).
Proof.
  cbv zeta. split; [|split; [|split]].
  - unfold client. rewrite client_filter, iloc_0, <- filter_id_nil.
    unfold ok, raise. destruct (filter _ _); split; congruence.
  - intros Hin.
    destruct (filter_id_single _ id (view_ids_NoDup rows a i n) Hin) as [c [H1 [H2 H3]]].
    exists c. unfold client. rewrite client_filter, H1. auto.
  - apply client_none.
  - intros s Hfile Hf Hc. rewrite (streamlit_app_loaded s rows Hfile).
    now apply page_selection_raises.
Qed.

(** The claim of C2 fails as it is stated: on the sample catalog with the
    income slider at (60000, 90000) the view is empty, the select box has
    nothing to offer, line 39 raises [IndexError], and the run ends with
    that exception uncaught, not with a handled failure. *)
Lemma selection_failure_is_uncaught :
  filtered_clients Sample.clients (18, 70) (60000, 90000) (0, 10) = [] /\
  selectbox [] (picked Sample.session_no_match) = None /\
  client [] None = raise IndexError /\
  streamlit_app Sample.session_no_match =
  ([sidebar_clients_filtres 0], raise IndexError).
Proof. vm_compute. auto. Qed.

(** ** The explanations *)

Lemma comprehension_raises {A B : Type} (f : A -> result B) (l : list A) (e0 : exn) :
  (forall x e, In x l -> f x = raise e -> e = e0) ->
  (exists x e, In x l /\ f x = raise e) ->
  comprehension f l = raise e0.
Proof.
  induction l as [|x l IH]; intros Hall [y [e [Hin Hy]]]; [contradiction|].
  simpl. destruct (f x) as [e'|b] eqn:E.
  - simpl. unfold raise. f_equal. apply (Hall x e'); [now left|exact E].
  - simpl. rewrite IH; [reflexivity| |].
    + intros z e' Hz. apply Hall. now right.
    + destruct Hin as [->|Hin]; [unfold raise in Hy; congruence|].
      exists y, e. auto.
Qed.

Lemma comprehension_ok {A B : Type} (f : A -> result B) (l : list A) :
  (forall x, In x l -> exists y, f x = ok y) ->
  exists ys, comprehension f l = ok ys /\ Forall2 (fun x y => f x = ok y) l ys.
Proof.
  induction l as [|x l IH]; intros H.
  - exists []. split; [reflexivity|constructor].
  - destruct (H x (or_introl eq_refl)) as [y Hy].
    destruct IH as [ys [E F]]; [intros z Hz; apply H; now right|].
    exists (y :: ys). simpl. rewrite Hy, E. split; [reflexivity|now constructor].
Qed.

Lemma feature_raises (f : string) (e : exn) : feature f = raise e -> e = IndexError.
Proof.
  unfold feature, Str.getitem, raise, ok. destruct (nth_error _ _); congruence.
Qed.

Lemma float_of_str_raises (s : string) (e : exn) :
  Str.float_of_str s = raise e -> e = ValueError.
Proof.
  unfold Str.float_of_str. destruct (Str.sign _) as [neg r].
  destruct (_ || _); [discriminate|].
  destruct (_ =? _)%string; [discriminate|].
  destruct (Str.number r) as [[[ip fp] r']|]; [destruct (Str.exponent r')|];
    unfold raise, ok; congruence.
Qed.

(** A text with a quote in it has a last token. *)
Lemma split_on_second (sep : ascii) (s : string) (x : string) :
  nth_error (Str.split_on sep s) 1 = Some x -> In sep (list_ascii_of_string s).
Proof.
  induction s as [|c s IH]; simpl; [discriminate|].
  destruct (Ascii.eqb_spec c sep) as [->|N]; [now left|].
  intros H. right. apply IH.
  destruct (Str.split_on sep s) as [|p ps]; simpl in *; [discriminate|exact H].
Qed.

Lemma split_nonempty (c : ascii) (s : string) :
  In c (list_ascii_of_string s) -> Str.isspace c = false -> Str.split s <> [].
Proof.
  induction s as [|c0 s IH]; simpl; [contradiction|].
  intros [->|Hin] Hc.
  - rewrite Hc. destruct s as [|c' s']; [discriminate|].
    destruct (Str.isspace c'); [discriminate|]. destruct (Str.split _); discriminate.
  - destruct (Str.isspace c0); [now apply IH|].
    destruct s as [|c' s']; [discriminate|].
    destruct (Str.isspace c'); [discriminate|]. destruct (Str.split _); discriminate.
Qed.

Lemma getitem_last_nonempty {A : Type} (l : list A) :
  l <> [] -> exists x, Str.getitem_last l = ok x.
Proof.
  intros H. unfold Str.getitem_last, Str.getitem.
  destruct (rev l) as [|x r] eqn:E.
  - apply (f_equal (@rev A)) in E. rewrite rev_involutive in E. contradiction.
  - exists x. reflexivity.
Qed.

Lemma split_on_absent (sep : ascii) (s : string) :
  ~ In sep (list_ascii_of_string s) -> Str.split_on sep s = [s].
Proof.
  induction s as [|c s IH]; simpl; intros H; [reflexivity|].
  destruct (Ascii.eqb_spec c sep) as [E|E]; [elim H; now left|].
  rewrite IH; [reflexivity|]. intros Hin. apply H. now right.
Qed.

Lemma split_on_present (sep : ascii) (s : string) :
  In sep (list_ascii_of_string s) -> exists x, nth_error (Str.split_on sep s) 1 = Some x.
Proof.
  induction s as [|c s IH]; simpl; [contradiction|].
  destruct (Ascii.eqb_spec c sep) as [E|E].
  - intros _. destruct s as [|c' s']; simpl; [now exists EmptyString|].
    destruct (Ascii.eqb c' sep); [now exists EmptyString|].
    destruct (Str.split_on sep s'); eexists; reflexivity.
  - intros [H|H]; [contradiction|]. destruct (IH H) as [x Hx].
    destruct (Str.split_on sep s) as [|p ps]; [discriminate|]. now exists x.
Qed.

(** The script finds no feature name exactly in the texts without any
    apostrophe. *)
Lemma no_quote_feature (f : string) :
  no_quote f <-> feature f = raise IndexError.
Proof.
  unfold no_quote, feature, Str.getitem. split.
  - intros H. now rewrite (split_on_absent _ _ H).
  - intros N Hin. destruct (split_on_present _ _ Hin) as [x Hx].
    rewrite Hx in N. discriminate.
Qed.

Lemma quoted_has_token (f : string) :
  ~ no_quote f -> exists token, Str.getitem_last (Str.split f) = ok token.
Proof.
  intros H. apply getitem_last_nonempty.
  rewrite no_quote_feature in H.
  destruct (feature f) as [e|name] eqn:E.
  - apply feature_raises in E as E'. subst e. now elim H.
  - unfold feature, Str.getitem in E.
    destruct (nth_error _ 1) as [x|] eqn:N; [|discriminate].
    apply split_on_second in N. now apply (split_nonempty "'"%char).
Qed.

Lemma contribution_raises (f : string) (e : exn) :
  ~ no_quote f -> contribution f = raise e -> e = ValueError.
Proof.
  intros H. destruct (quoted_has_token f H) as [token E].
  unfold contribution. rewrite E. simpl. apply float_of_str_raises.
Qed.

Lemma shap_factors_radar_raises (score : float) (f0 : string) (fs : list string) (e : exn) :
  comprehension feature (f0 :: fs) = raise e \/
  (exists names, comprehension feature (f0 :: fs) = ok names /\
                 comprehension contribution (f0 :: fs) = raise e) ->
  shap_factors_radar (Some score) (f0 :: fs) = ([], raise e).
Proof.
  unfold shap_factors_radar. intros [H|[names [H1 H2]]].
  - rewrite H. reflexivity.
  - rewrite H1, H2. reflexivity.
Qed.

(** One text without apostrophe, or one last token that is no number,
    makes lines 107 and 108 raise. *)
Lemma unreadable_explanation_raises (score : float) (shap_factors : list string) :
  (exists f, In f shap_factors /\ (no_quote f \/ non_numeric_token f)) ->
  exists e,
    shap_factors_radar (Some score) shap_factors = ([], raise e) /\
    ((exists f, In f shap_factors /\ no_quote f) -> e = IndexError) /\
    ((forall f, In f shap_factors -> ~ no_quote f) -> e = ValueError).
Proof.
  intros [f [Hin Hf]].
  destruct shap_factors as [|f0 fs]; [contradiction|].
  assert (D : (exists g, In g (f0 :: fs) /\ no_quote g) \/
              (forall g, In g (f0 :: fs) -> ~ no_quote g)).
  { clear. induction (f0 :: fs) as [|g l IH]; [right; intros g []|].
    destruct IH as [[h [H1 H2]]|IH]; [left; exists h; split; [now right|exact H2]|].
    destruct (feature g) as [e|name] eqn:E.
    - left. exists g. split; [now left|]. apply no_quote_feature.
      apply feature_raises in E as E'. now subst e.
    - right. intros h [<-|Hh]; [|now apply IH].
      rewrite no_quote_feature, E. unfold raise. congruence. }
  destruct D as [[g [Hg1 Hg2]]|Hall].
  - exists IndexError. split; [|split; [reflexivity|]].
    + apply shap_factors_radar_raises. left.
      apply comprehension_raises; [intros x e _; apply feature_raises|].
      exists g, IndexError. split; [exact Hg1|]. now apply no_quote_feature.
    + intros H. elim (H g Hg1 Hg2).
  - exists ValueError. split; [|split; [|reflexivity]].
    + apply shap_factors_radar_raises. right.
      destruct (comprehension_ok feature (f0 :: fs)) as [names [E _]].
      { intros x Hx. specialize (Hall x Hx). rewrite no_quote_feature in Hall.
        destruct (feature x) as [e|name] eqn:E; [|now exists name].
        apply feature_raises in E as E'. now subst e. }
      exists names. split; [exact E|].
      apply comprehension_raises.
      * intros x e Hx. apply contribution_raises. now apply Hall.
      * exists f, ValueError. split; [exact Hin|].
        destruct Hf as [Hf|[token [T1 T2]]]; [now elim (Hall f Hin)|].
        unfold contribution. rewrite T1. exact T2.
    + intros [g [Hg1 Hg2]]. elim (Hall g Hg1 Hg2).
Qed.

(** ** The request *)

(** C4. For every client record the request body has exactly five keys,
    [age], [revenu], [anciennete], [nb_incidents] and [score_credit], in
    that order, whose values are of type integer, float, integer, integer
    and float whatever the numbers in the record are, and each value is the
    number of the record's column of that name; this dictionary is the
    body of the request that the button sends. *)
Theorem payload_five_typed_keys (c : Client) :
  map fst (payload c) = ["age"; "revenu"; "anciennete"; "nb_incidents"; "score_credit"] /\
  List.length (payload c) = 5%nat /\
  NoDup (map fst (payload c)) /\
  map (fun kv => type_of (snd kv)) (payload c) =
    [type_int; type_float; type_int; type_int; type_float] /\
  lookup "age" (payload c) = Some (py_int (age c)) /\
  lookup "revenu" (payload c) = Some (py_float (revenu c)) /\
  lookup "anciennete" (payload c) = Some (py_int (anciennete c)) /\
  lookup "nb_incidents" (payload c) = Some (py_int (nb_incidents c)) /\
  lookup "score_credit" (payload c) = Some (py_float (score_credit c)) /\
  (forall post, exists w,
      effects (api_call true post c) = requests_post API_URL (payload c) 10 :: w).
Proof.
  repeat split.
  - repeat constructor; simpl; intuition discriminate.
  - intros post. unfold api_call, try_body. rewrite bind_do.
    unfold try_except, effects, outcome_of. cbn [fst snd].
    destruct (snd _) as [e|v]; [destruct (is_Exception e)|];
      try destruct (bind _ _); eexists; reflexivity.
Qed.

(** ** The direction of a factor *)

Lemma of_int_0 : of_int 0 = zero.
Proof. reflexivity. Qed.

(** C8. The direction of a contribution is fixed by its sign: a value
    strictly below zero reduces the risk, and a value that is zero or above
    (either signed zero included) increases it. *)
Theorem direction_by_sign (value : float) :
  (ltb value zero = true -> direction value = "réduit le risque") /\
  (leb zero value = true -> direction value = "augmente le risque") /\
  direction (S754_zero false) = "augmente le risque" /\
  direction (S754_zero true) = "augmente le risque" /\
  "réduit le risque" <> "augmente le risque".
Proof.
  unfold direction. rewrite of_int_0. repeat split.
  - intros H. now rewrite H.
  - intros H. destruct (ltb value zero) eqn:E; [|reflexivity].
    apply ltb_not_leb in E. congruence.
  - discriminate.
Qed.

(** ** The call of the scoring service *)

Lemma page_selected (s : Session) (clients : list Client) (a i n : Z * Z) (c : Client) :
  sidebar_filters s clients = ([], ok (a, i, n)) ->
  client (filtered_clients clients a i n)
         (selectbox (map client_id (filtered_clients clients a i n)) (picked s)) = ok c ->
  page s clients =
  (sidebar_clients_filtres (List.length (filtered_clients clients a i n))
     :: effects (scoring s (filtered_clients clients a i n) c),
   outcome_of (scoring s (filtered_clients clients a i n) c)).
Proof.
  intros Hf Hc. unfold page. rewrite Hf. unfold bind at 1. simpl.
  unfold lift. rewrite Hc. simpl. destruct (scoring _ _ _). reflexivity.
Qed.

Lemma scoring_without_score (s : Session) (view : list Client) (c : Client) (w : list effect) :
  api_call (button s) (post s) c = (w, ok (None, [])) ->
  scoring s view c = (w ++ [st_info_cliquez; st_table_client c; st_dataframe view], ok tt).
Proof.
  intros H. unfold scoring. rewrite H. reflexivity.
Qed.

Lemma api_call_failed (post : dict -> outcome) (c : Client) :
  call_failed (post (payload c)) ->
  exists e, is_Exception e = true /\
            api_call true post c =
            ([requests_post API_URL (payload c) 10; st_error_api e], ok (None, [])).
Proof.
  unfold api_call, try_body. destruct (post (payload c)) as [f|r]; simpl.
  - intros _. exists (exn_of_failure f). split; [now destruct f|].
    unfold try_except. simpl. now destruct f.
  - intros [H1 H2]. exists HTTPError. split; [reflexivity|].
    unfold try_except, raise_for_status.
    apply Z.leb_le in H1. apply Z.ltb_lt in H2. simpl. rewrite H1, H2. reflexivity.
Qed.

(** C5, as the script has it.  When the scoring call fails by a network
    error, a timeout or a response whose status is between 400 and 599,
    the exception is caught: one request was sent and no other follows, an
    error message is written, [score] stays [None] and [shap_factors]
    empty, and the run goes on to its end, showing the invitation to
    compute a score, the client and the filtered table. *)
Theorem api_failure_is_caught (s : Session) (clients : list Client) (a i n : Z * Z) (c : Client) :
  sidebar_filters s clients = ([], ok (a, i, n)) ->
  client (filtered_clients clients a i n)
         (selectbox (map client_id (filtered_clients clients a i n)) (picked s)) = ok c ->
  button s = true ->
  call_failed (post s (payload c)) ->
  exists e,
    is_Exception e = true /\
    api_call (button s) (post s) c =
      ([requests_post API_URL (payload c) 10; st_error_api e], ok (None, [])) /\
    page s clients =
      ([sidebar_clients_filtres (List.length (filtered_clients clients a i n));
        requests_post API_URL (payload c) 10;
        st_error_api e;
        st_info_cliquez;
        st_table_client c;
        st_dataframe (filtered_clients clients a i n)], ok tt).
Proof.
  intros Hf Hc Hb Hfail.
  destruct (api_call_failed (post s) c Hfail) as [e [He Hcall]].
  exists e. rewrite Hb. split; [exact He|]. split; [exact Hcall|].
  rewrite (page_selected s clients a i n c Hf Hc).
  rewrite (scoring_without_score s _ c _ (eq_trans (f_equal (fun b => api_call b (post s) c) Hb) Hcall)).
  reflexivity.
Qed.

(** An instance: the sample session, with a request that times out. *)
Lemma api_failure_is_caught_witness :
  exists e,
    is_Exception e = true /\
    api_call true (Sample.answers (no_response timed_out)) Sample.client_0 =
      ([requests_post API_URL (payload Sample.client_0) 10; st_error_api e], ok (None, [])) /\
    page (Sample.session (no_response timed_out)) Sample.clients =
      ([sidebar_clients_filtres
          (List.length (filtered_clients Sample.clients (18, 70) (1000, 100000) (0, 10)));
        requests_post API_URL (payload Sample.client_0) 10;
        st_error_api e;
        st_info_cliquez;
        st_table_client Sample.client_0;
        st_dataframe (filtered_clients Sample.clients (18, 70) (1000, 100000) (0, 10))], ok tt).
Proof.
  apply (api_failure_is_caught (Sample.session (no_response timed_out)) Sample.clients
           (18, 70) (1000, 100000) (0, 10) Sample.client_0).
  - vm_compute. reflexivity.
  - vm_compute. reflexivity.
  - reflexivity.
  - simpl. exact I.
Defined.

(** The claim of C5 fails as it is stated: status 300 is not a 2xx status,
    yet [raise_for_status] lets it pass; with the body [{"score": 0.5}]
    nothing is caught, no error message is written, and [score] is 0.5,
    which the gauge shows. *)
Lemma status_300_is_taken_as_success :
  ~ (200 <= status_code Sample.multiple_choices < 300) /\
  api_call true (Sample.answers (response Sample.multiple_choices)) Sample.client_0 =
    ([requests_post API_URL (payload Sample.client_0) 10], ok (Some lit_0_5, [])) /\
  streamlit_app (Sample.session (response Sample.multiple_choices)) =
    ([sidebar_clients_filtres 2;
      requests_post API_URL (payload Sample.client_0) 10;
      plotly_gauge (mul lit_0_5 (of_int 100));
      st_warning_potentiellement_eligible;
      st_table_client Sample.client_0;
      st_dataframe Sample.view], ok tt).
Proof.
  split; [simpl; lia|]. split; vm_compute; reflexivity.
Qed.

(** C6. Interpreting the answer [{}] gives no score and no factor, and
    raises nothing: with such a body under a status that is no error, the
    call writes no error message and leaves [score] at [None] and
    [shap_factors] empty; the page then shows the invitation to compute a
    score, which is not what it shows for a score of zero (a gauge at 0
    and the refusal), and skips the factors. *)
Theorem empty_response_no_score :
  interpret empty_resp = (None, []) /\
  (forall post c status,
      ~ (400 <= status < 600) ->
      post (payload c) = response {| status_code := status; body := Some empty_resp |} ->
      api_call true post c = ([requests_post API_URL (payload c) 10], ok (None, []))) /\
  score_gauge None = ([st_info_cliquez], ok tt) /\
  score_gauge (Some zero) = ([plotly_gauge zero; st_error_non_eligible], ok tt) /\
  (forall shap_factors, shap_factors_radar None shap_factors = ([], ok tt)) /\
  (forall s view c,
      button s = true ->
      post s (payload c) = response {| status_code := 200; body := Some empty_resp |} ->
      scoring s view c =
      ([requests_post API_URL (payload c) 10; st_info_cliquez; st_table_client c;
        st_dataframe view], ok tt)).
Proof.
  assert (H : forall post c status,
             ~ (400 <= status < 600) ->
             post (payload c) = response {| status_code := status; body := Some empty_resp |} ->
             api_call true post c = ([requests_post API_URL (payload c) 10], ok (None, []))).
  { intros post c status Hs Hp. unfold api_call, try_body, raise_for_status.
    rewrite Hp. simpl.
    destruct ((400 <=? status) && (status <? 600)) eqn:E; [|reflexivity].
    apply andb_true_iff in E. rewrite Z.leb_le, Z.ltb_lt in E. contradiction. }
  split; [reflexivity|]. split; [exact H|].
  split; [reflexivity|]. split; [vm_compute; reflexivity|].
  split; [intros [|f fs]; reflexivity|].
  intros s view c Hb Hp.
  apply (scoring_without_score s view c [requests_post API_URL (payload c) 10]).
  rewrite Hb. apply (H (post s) c 200); [lia|exact Hp].
Qed.

(** ** The normalisation of the contributions *)

Lemma max_from_spec (xs : list float) (m0 : float) :
  is_nan m0 = false ->
  (forall x, In x xs -> is_nan x = false) ->
  (max_from m0 xs = m0 \/ In (max_from m0 xs) xs) /\
  leb m0 (max_from m0 xs) = true /\
  (forall x, In x xs -> leb x (max_from m0 xs) = true).
Proof.
  revert m0. induction xs as [|x xs IH]; intros m0 H0 Hxs; simpl.
  - split; [now left|]. split; [now apply leb_refl|intros x []].
  - assert (Hx : is_nan x = false) by (apply Hxs; now left).
    set (m1 := if ltb m0 x then x else m0).
    assert (H1 : is_nan m1 = false) by (unfold m1; now destruct (ltb m0 x)).
    assert (L0 : leb m0 m1 = true).
    { unfold m1. destruct (ltb m0 x) eqn:E; [now apply ltb_leb|now apply leb_refl]. }
    assert (Lx : leb x m1 = true).
    { unfold m1. destruct (ltb m0 x) eqn:E; [now apply leb_refl|now apply not_ltb_leb]. }
    destruct (IH m1 H1) as [Hin [Hle Hall]]; [intros y Hy; apply Hxs; now right|].
    split; [|split].
    + destruct Hin as [Hin|Hin]; [|right; now right].
      rewrite Hin. unfold m1. destruct (ltb m0 x); [right; now left|now left].
    + now apply (leb_trans _ m1).
    + intros y [<-|Hy]; [now apply (leb_trans _ m1)|now apply Hall].
Qed.

Lemma max_from_zeros (xs : list float) (s : bool) :
  (forall x, In x xs -> is_zero x = true) -> max_from (S754_zero s) xs = S754_zero s.
Proof.
  induction xs as [|x xs IH]; intros H; simpl; [reflexivity|].
  assert (Hx : is_zero x = true) by (apply H; now left).
  destruct x; try discriminate. simpl. apply IH. intros y Hy. apply H. now right.
Qed.

Lemma div_zero_one (c : float) : is_zero c = true -> div c one = c.
Proof. destruct c as [[|]| | |]; try discriminate; reflexivity. Qed.

Lemma is_zero_abs (c : float) : is_zero (abs c) = is_zero c.
Proof. now destruct c. Qed.

(** C7, as the script has it.  For every non-empty list of contributions,
    each normalised contribution is the contribution divided by one
    divisor, which is never zero.  When all contributions are zero the
    divisor is 1, and the normalised contributions are the contributions
    themselves.  Otherwise, when no contribution is nan, the divisor is
    the largest of their absolute values: it is the absolute value of one
    of them and none exceeds it.  For the contributions -0.10 and 0.30 the
    divisor is 0.30 and the normalised magnitude of the first lies between
    0.333 and 0.334, these being the contributions that the explanations
    ['revenu' contributes -0.10] and ['age' contributes 0.30] carry. *)
Theorem contributions_norm_by_max_abs (c0 : float) (cs : list float) :
  let contributions := c0 :: cs in
  exists m,
    max_val contributions = ok m /\
    contributions_norm contributions m = map (fun c => div c m) contributions /\
    is_zero m = false /\
    ((forall c, In c contributions -> is_zero c = true) ->
     m = one /\ contributions_norm contributions m = contributions) /\
    ((forall c, In c contributions -> is_nan c = false) ->
     (exists c, In c contributions /\ is_zero c = false) ->
     In m (map abs contributions) /\
     (forall c, In c contributions -> leb (abs c) m = true)) /\
    comprehension contribution ["'revenu' contributes -0.10"; "'age' contributes 0.30"] =
      ok [Sample.minus_0_10; Sample.plus_0_30] /\
    max_val [Sample.minus_0_10; Sample.plus_0_30] = ok Sample.plus_0_30 /\
    leb (of_decimal false 333 (-3)) (abs (div Sample.minus_0_10 Sample.plus_0_30)) = true /\
    leb (abs (div Sample.minus_0_10 Sample.plus_0_30)) (of_decimal false 334 (-3)) = true.
Proof.
  cbv zeta. unfold max_val, py_max. simpl map. simpl rbind.
  set (m := max_from (abs c0) (map abs cs)).
  exists (if truthy m then m else one).
  split; [reflexivity|]. split; [reflexivity|]. split; [|split; [|split]].
  - unfold truthy. destruct (is_zero m) eqn:E; simpl; [reflexivity|exact E].
  - intros Hz.
    assert (Hm : m = S754_zero false).
    { unfold m. assert (H0 : is_zero c0 = true) by (apply Hz; now left).
      destruct c0; try discriminate. simpl. apply max_from_zeros.
      intros x Hx. apply in_map_iff in Hx. destruct Hx as [c [<- Hc]].
      rewrite is_zero_abs. apply Hz. now right. }
    rewrite Hm.
    replace (if truthy (S754_zero false) then S754_zero false else one) with one
      by reflexivity.
    split; [reflexivity|]. unfold contributions_norm.
    transitivity (map (fun c : float => c) (c0 :: cs)); [|apply map_id].
    apply map_ext_in. intros c Hc. apply div_zero_one. now apply Hz.
  - intros Hnan [c [Hc Hcz]].
    destruct (max_from_spec (map abs cs) (abs c0)) as [Hin [H0 Hall]].
    { apply abs_not_nan. apply Hnan. now left. }
    { intros x Hx. apply in_map_iff in Hx. destruct Hx as [y [<- Hy]].
      apply abs_not_nan. apply Hnan. now right. }
    fold m in Hin, H0, Hall.
    assert (Hle : forall y, In y (c0 :: cs) -> leb (abs y) m = true).
    { intros y [<-|Hy]; [exact H0|]. apply Hall. now apply in_map. }
    assert (Hm : is_zero m = false).
    { destruct (is_zero m) eqn:E; [|reflexivity].
      pose proof (Hle c Hc) as L.
      rewrite (leb_abs_zero c m Hcz (Hnan c Hc) E) in L. discriminate. }
    unfold truthy. rewrite Hm. simpl. split; [|exact Hle].
    destruct Hin as [->|Hin]; [now left|now right].
  - repeat split; vm_compute; reflexivity.
Qed.

(** The claim of C7 fails as it is stated: [float] reads the text [nan],
    and with a nan among the contributions the divisor follows the order
    of the list.  For nan and 1.0 it is nan, and the normalised
    contribution of 1.0 is nan; for 1.0 and nan it is 1.0.  So the divisor
    is not fixed by the set of the contributions, and in the first order
    it is not the largest absolute value, which 1.0 does not stay
    below. *)
Lemma nan_contribution_divisor_follows_order :
  comprehension contribution ["'age' contributes nan"; "'revenu' contributes 1.0"] =
    ok [S754_nan; one] /\
  max_val [S754_nan; one] = ok S754_nan /\
  max_val [one; S754_nan] = ok one /\
  contributions_norm [S754_nan; one] S754_nan = [S754_nan; S754_nan] /\
  leb (abs one) S754_nan = false.
Proof. repeat split; vm_compute; reflexivity. Qed.

(** ** The bounds of the income slider *)

Lemma excluded_above_upper_bound (clients : list Client) (a i n : Z * Z) (c : Client) :
  ltb (of_int (snd i)) (revenu c) = true -> ~ In c (filtered_clients clients a i n).
Proof.
  intros H Hin. rewrite filtered_clients_filter in Hin. apply filter_In in Hin.
  destruct Hin as [_ Hs]. apply satisfiesb_true in Hs.
  destruct Hs as [_ [[_ Hle] _]]. apply ltb_not_leb in H. congruence.
Qed.

Lemma fold_fmax_max_from (l : list float) (x : float) :
  fold_left fmax l x = max_from x l.
Proof. revert x. induction l as [|y l IH]; intros x; [reflexivity|apply IH]. Qed.

Lemma fold_fmin_spec (l : list float) (x : float) :
  is_nan x = false ->
  (forall y, In y l -> is_nan y = false) ->
  (fold_left fmin l x = x \/ In (fold_left fmin l x) l) /\
  leb (fold_left fmin l x) x = true /\
  (forall y, In y l -> leb (fold_left fmin l x) y = true).
Proof.
  revert x. induction l as [|y l IH]; intros x Hx Hl.
  - simpl. split; [now left|]. split; [now apply leb_refl|intros y []].
  - assert (Hy : is_nan y = false) by (apply Hl; now left).
    assert (Hm : is_nan (fmin x y) = false) by (unfold fmin; now destruct (ltb y x)).
    assert (Hmx : leb (fmin x y) x = true).
    { unfold fmin. destruct (ltb y x) eqn:E; [now apply ltb_leb|now apply leb_refl]. }
    assert (Hmy : leb (fmin x y) y = true).
    { unfold fmin. destruct (ltb y x) eqn:E; [now apply leb_refl|now apply not_ltb_leb]. }
    destruct (IH (fmin x y) Hm (fun z Hz => Hl z (or_intror Hz))) as [H1 [H2 H3]].
    cbn [fold_left]. split; [|split].
    + destruct H1 as [H1|H1]; [|right; now right].
      rewrite H1. unfold fmin. destruct (ltb y x); [right; now left|now left].
    + now apply (leb_trans _ (fmin x y)).
    + intros z [<-|Hz]; [now apply (leb_trans _ (fmin x y))|now apply H3].
Qed.

(** The two bounds of the income slider are the truncations of the
    smallest and of the largest income of the catalog. *)
Lemma income_bounds_attained (clients : list Client) (lo hi : Z) :
  income_bounds clients = ok (lo, hi) ->
  exists cmin cmax,
    In cmin clients /\ to_int (revenu cmin) = ok lo /\
    In cmax clients /\ to_int (revenu cmax) = ok hi /\
    forall c, In c clients -> is_nan (revenu c) = false ->
              leb (revenu cmin) (revenu c) = true /\
              leb (revenu c) (revenu cmax) = true.
Proof.
  unfold income_bounds, series_min, series_max.
  destruct (filter (fun v => negb (is_nan v)) (map revenu clients)) as [|x l] eqn:E;
    [discriminate|].
  assert (Hcol : forall y, In y (x :: l) -> is_nan y = false /\ In y (map revenu clients)).
  { intros y Hy. rewrite <- E in Hy. apply filter_In in Hy. destruct Hy as [H1 H2].
    split; [now destruct (is_nan y)|exact H1]. }
  assert (Hall : forall c, In c clients -> is_nan (revenu c) = false -> In (revenu c) (x :: l)).
  { intros c Hc Hn. rewrite <- E. apply filter_In. split; [now apply in_map|now rewrite Hn]. }
  destruct (fold_fmin_spec l x) as [N1 [N2 N3]];
    [apply Hcol; now left|intros y Hy; apply Hcol; now right|].
  rewrite fold_fmax_max_from.
  destruct (max_from_spec l x) as [X1 [X2 X3]];
    [apply Hcol; now left|intros y Hy; apply Hcol; now right|].
  set (vmin := fold_left fmin l x) in *. set (vmax := max_from x l) in *.
  assert (Imin : In vmin (x :: l)) by (destruct N1 as [->|H]; [now left|now right]).
  assert (Imax : In vmax (x :: l)) by (destruct X1 as [->|H]; [now left|now right]).
  destruct (proj1 (in_map_iff _ _ _) (proj2 (Hcol _ Imin))) as [cmin [Emin Hmin]].
  destruct (proj1 (in_map_iff _ _ _) (proj2 (Hcol _ Imax))) as [cmax [Emax Hmax]].
  destruct (to_int vmin) as [e|lo0] eqn:Tmin; [discriminate|].
  destruct (to_int vmax) as [e|hi0] eqn:Tmax; [discriminate|].
  cbn [rbind]. intros H. injection H as <- <-.
  exists cmin, cmax. rewrite Emin, Emax.
  split; [exact Hmin|]. split; [exact Tmin|]. split; [exact Hmax|]. split; [exact Tmax|].
  intros c Hc Hn. specialize (Hall c Hc Hn). split.
  - destruct Hall as [<-|H]; [exact N2|now apply N3].
  - destruct Hall as [<-|H]; [exact X2|now apply X3].
Qed.

Lemma digits2_pos_lower (m : positive) : 2 ^ (Zpos (digits2_pos m) - 1) <= Zpos m.
Proof.
  induction m as [p IH|p IH|]; cbn [digits2_pos]; [| |simpl; lia];
    rewrite Pos2Z.inj_succ;
    replace (Z.succ (Zpos (digits2_pos p)) - 1) with (Z.succ (Zpos (digits2_pos p) - 1)) by lia;
    rewrite Z.pow_succ_r by lia; lia.
Qed.

Lemma leb_finite_positive (m m0 : positive) (e e0 : Z) :
  leb (S754_finite false m e) (S754_finite false m0 e0) =
  match e ?= e0 with
  | Lt => true
  | Gt => false
  | Eq => match (m ?= m0)%positive with Gt => false | _ => true end
  end.
Proof. unfold leb, SFleb, SFcompare. destruct (e ?= e0); reflexivity. Qed.

Lemma shifted_below (m : positive) (z : Z) :
  Z.shiftl (Zpos m) (-36) = z -> z < 100000 -> (Zpos m < 6871947673600000).
Proof.
  intros Hz Hlt.
  change (Z.shiftl (Zpos m) (-36)) with (Z.shiftr (Zpos m) 36) in Hz.
  rewrite Z.shiftr_div_pow2 in Hz by lia.
  destruct (Z.lt_ge_cases (Zpos m) 6871947673600000) as [H|H]; [exact H|exfalso].
  assert (D : 100000 <= Zpos m / 2 ^ 36).
  { apply Z.div_le_lower_bound; [lia|]. change (2 ^ 36 * 100000) with 6871947673600000. lia. }
  lia.
Qed.

Lemma shifted_large (m : positive) (e z : Z) :
  Z.shiftl (Zpos m) e = z -> -36 < e -> Zpos (digits2_pos m) = 53 -> 100000 <= z.
Proof.
  intros Hz He Hd.
  pose proof (digits2_pos_lower m) as Hm. rewrite Hd in Hm.
  change (2 ^ (53 - 1)) with 4503599627370496 in Hm.
  destruct (Z.leb_spec 0 e) as [H0|H0].
  - rewrite Z.shiftl_mul_pow2 in Hz by lia.
    assert (0 < 2 ^ e) by (apply Z.pow_pos_nonneg; lia). nia.
  - rewrite <- Z.shiftr_opp_r, Z.shiftr_div_pow2 in Hz by lia.
    assert (P : 0 < 2 ^ (- e)) by (apply Z.pow_pos_nonneg; lia).
    assert (Q : 2 ^ (- e) <= 2 ^ 35) by (apply Z.pow_le_mono_r; lia).
    change (2 ^ 35) with 34359738368 in Q.
    rewrite <- Hz. apply Z.div_le_lower_bound; [exact P|].
    clear - Q Hm. set (p := 2 ^ (- e)) in *. lia.
Qed.

(** A binary64 number whose truncation is below 100000 is itself at most
    100000. *)
Lemma to_int_below_default (x : float) (z : Z) :
  is_binary64 x = true -> to_int x = ok z -> z < 100000 ->
  leb x (of_int 100000) = true.
Proof.
  assert (E : of_int 100000 = S754_finite false 6871947673600000 (-36))
    by (vm_compute; reflexivity).
  rewrite E. clear E.
  destruct x as [s|s| |s m e]; try discriminate;
    [destruct s; reflexivity|].
  destruct s; [reflexivity|].
  unfold is_binary64, valid_binary, bounded, canonical_mantissa, fexp, SpecFloat.emin.
  unfold to_int, ok. intros Hb Hz Hlt. injection Hz as Hz.
  apply andb_prop in Hb. destruct Hb as [Hc _]. apply Z.eqb_eq in Hc.
  unfold prec, emax in Hc.
  rewrite leb_finite_positive.
  destruct (Z.compare_spec e (-36)) as [He|He|He]; [|reflexivity|].
  - subst e. pose proof (shifted_below m z Hz Hlt) as H.
    destruct (Pos.compare_spec m 6871947673600000) as [C|C|C]; try reflexivity.
    exfalso. lia.
  - exfalso.
    assert (Hd : Zpos (digits2_pos m) = 53) by lia.
    pose proof (shifted_large m e z Hz He Hd). lia.
Qed.

Lemma slider_bounds_upper (min_value max_value : Z) (value : Z * Z) :
  snd (slider_bounds min_value max_value value) = Z.max (snd value) max_value.
Proof. unfold slider_bounds. cbn [snd]. lia. Qed.

Lemma in_view_iff (clients : list Client) (a i n : Z * Z) (c : Client) :
  In c clients ->
  (In c (filtered_clients clients a i n) <->
   within a (age c) /\ within_float i (revenu c) /\ within n (nb_incidents c)).
Proof.
  intros Hin. rewrite filtered_clients_filter, filter_In, satisfiesb_true.
  unfold satisfies. tauto.
Qed.

(** C10, as the script has it.  The bounds given to the income slider are
    the integer truncations of the smallest and of the largest [revenu] of
    the catalog, each the income of some client.  The slider widens them
    so that they hold its default, (1000, 100000): the ranges it offers
    end at the larger of 100000 and the truncated maximum at most, and
    the widest of them ends there.  A record whose
    [revenu] is strictly above the truncated maximum is in no view whose
    income range ends at that truncation.  That is the widest range
    offered when the truncation is 100000 or more.  When it is below
    100000, the incomes being binary64 values, the record is at most
    100000: every range that ends at 100000, the one of the untouched
    slider included, keeps it as far as its upper end goes.  The
    untouched slider gives (1000, 100000) in both cases. *)
Theorem income_range_and_truncated_maximum (clients : list Client) (lo hi : Z) (c : Client) :
  income_bounds clients = ok (lo, hi) ->
  In c clients ->
  ltb (of_int hi) (revenu c) = true ->
  let widest := slider_bounds lo hi (1000, 100000) in
  (exists cmin cmax,
      In cmin clients /\ to_int (revenu cmin) = ok lo /\
      In cmax clients /\ to_int (revenu cmax) = ok hi /\
      forall c', In c' clients -> is_nan (revenu c') = false ->
                 leb (revenu cmin) (revenu c') = true /\
                 leb (revenu c') (revenu cmax) = true) /\
  snd widest = Z.max 100000 hi /\
  offered widest widest /\ offered widest (1000, 100000) /\
  (forall range, offered widest range -> snd range <= Z.max 100000 hi) /\
  (forall a n lo', ~ In c (filtered_clients clients a (lo', hi) n)) /\
  (100000 <= hi -> forall a n, ~ In c (filtered_clients clients a widest n)) /\
  (hi < 100000 ->
   (forall c', In c' clients -> is_binary64 (revenu c') = true) ->
   leb (revenu c) (of_int 100000) = true /\
   forall a n lo',
     In c (filtered_clients clients a (lo', 100000) n) <->
     within a (age c) /\ leb (of_int lo') (revenu c) = true /\ within n (nb_incidents c)) /\
  (forall set,
      slider lo hi (1000, 100000) set = ok (get set (1000, 100000)) \/
      slider lo hi (1000, 100000) set = raise StreamlitJSNumberBoundsError).
Proof.
  intros Hb Hin Hlt widest.
  pose proof (income_bounds_attained clients lo hi Hb) as Hatt.
  assert (Hup : snd widest = Z.max 100000 hi) by apply slider_bounds_upper.
  split; [exact Hatt|]. split; [exact Hup|].
  split; [unfold offered, widest, slider_bounds; cbn [fst snd]; lia|].
  split; [unfold offered, widest, slider_bounds; cbn [fst snd]; lia|].
  split; [intros range [_ [_ H]]; now rewrite <- Hup|].
  split; [|split; [|split]].
  - intros a n lo'. now apply excluded_above_upper_bound.
  - intros H a n. apply excluded_above_upper_bound.
    rewrite Hup, Z.max_r by exact H. exact Hlt.
  - intros H Hcan.
    destruct Hatt as [cmin [cmax [_ [_ [Hmax [Tmax Hall]]]]]].
    assert (Hn : is_nan (revenu c) = false).
    { destruct (revenu c); try reflexivity. unfold ltb, SFltb, SFcompare in Hlt.
      destruct (of_int hi); discriminate. }
    assert (Hle : leb (revenu c) (of_int 100000) = true).
    { apply (leb_trans _ (revenu cmax)); [now apply Hall|].
      apply (to_int_below_default _ hi); [now apply Hcan|exact Tmax|exact H]. }
    split; [exact Hle|].
    intros a n lo'. rewrite (in_view_iff clients a (lo', 100000) n c Hin).
    unfold within_float. cbn [fst snd]. tauto.
  - intros set. unfold slider.
    destruct (validate_int_bounds lo hi (1000, 100000)); [left|right]; reflexivity.
Qed.

(** The claim of C10 fails as it is stated: in the catalog below the
    largest [revenu] is 80000.5, so the bounds given to the slider are
    30000 and 80000; the ranges the slider offers go up to 100000, the
    untouched slider gives (1000, 100000), and the client above 80000 is
    in the view, which holds the three clients. *)
Lemma default_range_keeps_record_above_truncation :
  income_bounds Sample.clients_b = ok (30000, 80000) /\
  In Sample.client_b1 Sample.clients_b /\
  ltb (of_int 80000) (revenu Sample.client_b1) = true /\
  slider_bounds 30000 80000 (1000, 100000) = (1000, 100000) /\
  sidebar_filters Sample.session_b Sample.clients_b =
    ([], ok ((18, 70), (1000, 100000), (0, 10))) /\
  In Sample.client_b1
     (filtered_clients Sample.clients_b (18, 70) (1000, 100000) (0, 10)) /\
  In (st_table_client Sample.client_b1 )
     (effects (streamlit_app
                 {| file := Some Sample.rows_b;
                    age_slider := None; income_slider := None; incident_slider := None;
                    picked := Some 1%nat; button := false;
                    post := Sample.answers (no_response timed_out) |})) /\
  In (sidebar_clients_filtres 3) (effects (streamlit_app Sample.session_b)).
Proof.
  repeat split; try (vm_compute; reflexivity); vm_compute; tauto.
Qed.

(** An instance: the second sample catalog, whose largest [revenu],
    80000.5, is the one of its second client. *)
Lemma income_range_and_truncated_maximum_witness :
  let widest := slider_bounds 30000 80000 (1000, 100000) in
  (exists cmin cmax,
      In cmin Sample.clients_b /\ to_int (revenu cmin) = ok 30000 /\
      In cmax Sample.clients_b /\ to_int (revenu cmax) = ok 80000 /\
      forall c', In c' Sample.clients_b -> is_nan (revenu c') = false ->
                 leb (revenu cmin) (revenu c') = true /\
                 leb (revenu c') (revenu cmax) = true) /\
  snd widest = Z.max 100000 80000 /\
  offered widest widest /\ offered widest (1000, 100000) /\
  (forall range, offered widest range -> snd range <= Z.max 100000 80000) /\
  (forall a n lo', ~ In Sample.client_b1 (filtered_clients Sample.clients_b a (lo', 80000) n)) /\
  (100000 <= 80000 ->
   forall a n, ~ In Sample.client_b1 (filtered_clients Sample.clients_b a widest n)) /\
  (80000 < 100000 ->
   (forall c', In c' Sample.clients_b -> is_binary64 (revenu c') = true) ->
   leb (revenu Sample.client_b1) (of_int 100000) = true /\
   forall a n lo',
     In Sample.client_b1 (filtered_clients Sample.clients_b a (lo', 100000) n) <->
     within a (age Sample.client_b1) /\
     leb (of_int lo') (revenu Sample.client_b1) = true /\
     within n (nb_incidents Sample.client_b1)) /\
  (forall set,
      slider 30000 80000 (1000, 100000) set = ok (get set (1000, 100000)) \/
      slider 30000 80000 (1000, 100000) set = raise StreamlitJSNumberBoundsError).
Proof.
  apply (income_range_and_truncated_maximum Sample.clients_b 30000 80000 Sample.client_b1).
  - vm_compute. reflexivity.
  - vm_compute. auto.
  - vm_compute. reflexivity.
Defined.

(** ** Well-formed explanations *)


Lemma for_each_factors (l : list string) (names : list string) (values : list float) :
  comprehension feature l = ok names ->
  comprehension contribution l = ok values ->
  for_each l (fun f =>
    name <- lift (feature f) ;;
    value <- lift (contribution f) ;;
    do (markdown_facteur name (direction value) (color value) (abs value))) =
  (map (fun nv => facteur (fst nv) (snd nv)) (combine names values), ok tt).
Proof.
  revert names values. induction l as [|f l IH]; intros names values Hn Hv; simpl in *.
  - injection Hn as <-. reflexivity.
  - destruct (feature f) as [e|name]; [discriminate|].
    destruct (contribution f) as [e|value]; [discriminate|].
    simpl in *.
    destruct (comprehension feature l) as [e|names']; [discriminate|].
    destruct (comprehension contribution l) as [e|values']; [discriminate|].
    simpl in *. injection Hn as <-. injection Hv as <-.
    rewrite (IH names' values' eq_refl eq_refl). reflexivity.
Qed.

(** When every explanation is well formed, the radar is drawn and then
    one line per explanation, in the order of the service, each with the
    direction of its contribution. *)
Lemma well_formed_explanations_drawn (score : float) (f0 : string) (fs : list string)
  (names : list string) (values : list float) :
  comprehension feature (f0 :: fs) = ok names ->
  comprehension contribution (f0 :: fs) = ok values ->
  exists m,
    max_val values = ok m /\
    shap_factors_radar (Some score) (f0 :: fs) =
    (plotly_radar (map abs (contributions_norm values m)) names
       :: map (fun nv => facteur (fst nv) (snd nv)) (combine names values), ok tt).
Proof.
  intros Hn Hv.
  assert (Hm : exists m, max_val values = ok m).
  { simpl in Hv. destruct (contribution f0) as [e|v0]; [discriminate|]. simpl in Hv.
    destruct (comprehension contribution fs) as [e|vs]; [discriminate|].
    injection Hv as <-. eexists. reflexivity. }
  destruct Hm as [m Hm]. exists m. split; [exact Hm|].
  unfold shap_factors_radar.
  rewrite Hn, bind_lift_ok, Hv, bind_lift_ok, Hm, bind_lift_ok, bind_do.
  rewrite (for_each_factors (f0 :: fs) names values Hn Hv). reflexivity.
Qed.

(** ** Truncation *)

Lemma to_int_truncates (s : bool) (m : positive) (e : Z) :
  to_int (S754_finite s m e) =
  ok ((if s then -1 else 1) *
      (if 0 <=? e then Zpos m * 2 ^ e else Zpos m / 2 ^ (- e))).
Proof.
  unfold to_int. f_equal.
  destruct (Z.leb_spec 0 e) as [H|H].
  - rewrite Z.shiftl_mul_pow2 by assumption. destruct s; lia.
  - rewrite Z.shiftl_div_pow2 by lia. destruct s; lia.
Qed.

(** ** The scenario of the specification *)

(** On the catalog of three clients aged 20, 40 and 60, the age range
    (18, 50) leaves the clients aged 20 and 40, in that order; resolving
    the client aged 60 on this view raises, resolving the client aged 40
    gives that client. *)
Example scenario_ages_20_40_60 :
  map age (filtered_clients Sample.clients (18, 50) (1000, 100000) (0, 10)) = [20; 40] /\
  List.length (filtered_clients Sample.clients (18, 50) (1000, 100000) (0, 10)) = 2%nat /\
  client (filtered_clients Sample.clients (18, 50) (1000, 100000) (0, 10)) (Some 2) =
    raise IndexError /\
  option_map age
    (match client (filtered_clients Sample.clients (18, 50) (1000, 100000) (0, 10)) (Some 1) with
     | inr c => Some c
     | inl _ => None
     end) = Some 40.
Proof. vm_compute. auto. Qed.

(** One explanation, ['age' contributes 0.42], under a score: the radar has
    the single magnitude 1.0 and the summary one line, which says that
    [age] increases the risk. *)
Example scenario_single_factor :
  shap_factors_radar (Some lit_0_8) ["'age' contributes 0.42"] =
  ([plotly_radar [one] ["age"];
    markdown_facteur "age" "augmente le risque" "#F44336" (of_decimal false 42 (-2))],
   ok tt).
Proof. vm_compute. reflexivity. Qed.

(** * Further properties of the script *)

(** ** Effects and outcome of a sequence *)

Lemma effects_bind {A B : Type} (m : M A) (k : A -> M B) :
  effects (bind m k) =
  effects m ++ match outcome_of m with
               | inr a => effects (k a)
               | inl _ => []
               end.
Proof.
  destruct m as [w [e|a]]; simpl; [now rewrite app_nil_r|].
  now destruct (k a).
Qed.

Lemma outcome_bind {A B : Type} (m : M A) (k : A -> M B) :
  outcome_of (bind m k) =
  match outcome_of m with
  | inr a => outcome_of (k a)
  | inl e => inl e
  end.
Proof.
  destruct m as [w [e|a]]; simpl; [reflexivity|]. now destruct (k a).
Qed.

Lemma M_eta {A : Type} (m : M A) : m = (effects m, outcome_of m).
Proof. now destruct m. Qed.

Lemma count_app {A : Type} (p : A -> bool) (l1 l2 : list A) :
  count p (l1 ++ l2) = (count p l1 + count p l2)%nat.
Proof.
  induction l1 as [|x l1 IH]; simpl; [reflexivity|].
  destruct (p x); simpl; now rewrite IH.
Qed.

Lemma count_none {A : Type} (p : A -> bool) (l : list A) :
  (forall x, In x l -> p x = false) -> count p l = 0%nat.
Proof.
  induction l as [|x l IH]; simpl; intros H; [reflexivity|].
  rewrite (H x (or_introl eq_refl)). apply IH. intros y Hy. apply H. now right.
Qed.

(** ** The call, case by case *)

Lemma api_call_cases (post : dict -> outcome) (c : Client) :
  api_call true post c =
  match post (payload c) with
  | no_response f =>
      ([requests_post API_URL (payload c) 10; st_error_api (exn_of_failure f)],
       ok (None, []))
  | response r =>
      if (400 <=? status_code r) && (status_code r <? 600) then
        ([requests_post API_URL (payload c) 10; st_error_api HTTPError], ok (None, []))
      else
        match body r with
        | None =>
            ([requests_post API_URL (payload c) 10; st_error_api JSONDecodeError],
             ok (None, []))
        | Some resp => ([requests_post API_URL (payload c) 10], ok (interpret resp))
        end
  end.
Proof.
  unfold api_call, try_body, raise_for_status, json.
  destruct (post (payload c)) as [f|r]; simpl.
  - now destruct f.
  - destruct ((400 <=? status_code r) && (status_code r <? 600)); simpl; [reflexivity|].
    destruct (body r); reflexivity.
Qed.

Lemma api_call_ok (b : bool) (post : dict -> outcome) (c : Client) :
  exists w answer,
    api_call b post c = (w, ok answer) /\
    count is_request w = (if b then 1 else 0)%nat /\
    (forall e, In e w -> e = requests_post API_URL (payload c) 10 \/ exists x, e = st_error_api x).
Proof.
  destruct b; [|exists [], (None, []); repeat split; intros e []].
  rewrite api_call_cases.
  destruct (post (payload c)) as [f|r].
  - eexists _, _. split; [reflexivity|]. split; [reflexivity|].
    intros e [<-|[<-|[]]]; eauto.
  - destruct ((400 <=? status_code r) && (status_code r <? 600)).
    + eexists _, _. split; [reflexivity|]. split; [reflexivity|].
      intros e [<-|[<-|[]]]; eauto.
    + destruct (body r).
      * eexists _, _. split; [reflexivity|]. split; [reflexivity|].
        intros e [<-|[]]; eauto.
      * eexists _, _. split; [reflexivity|]. split; [reflexivity|].
        intros e [<-|[<-|[]]]; eauto.
Qed.

(** ** What the sections of the page draw *)

Lemma score_gauge_ok (score : option float) :
  outcome_of (score_gauge score) = ok tt /\
  forall e, In e (effects (score_gauge score)) -> is_request e = false.
Proof.
  destruct score as [x|]; simpl.
  - destruct (leb lit_0_8 x); [|destruct (leb lit_0_5 x)]; simpl;
      (split; [reflexivity|intros e [<-|[<-|[]]]; reflexivity]).
  - split; [reflexivity|intros e [<-|[]]; reflexivity].
Qed.

Lemma for_each_effects {A : Type} (P : effect -> Prop) (body : A -> M unit) (l : list A) :
  (forall x e, In e (effects (body x)) -> P e) ->
  forall e, In e (effects (for_each l body)) -> P e.
Proof.
  intros H. induction l as [|x l IH]; simpl; intros e He; [contradiction|].
  rewrite effects_bind in He. apply in_app_or in He. destruct He as [He|He].
  - now apply (H x).
  - destruct (outcome_of (body x)); [contradiction|now apply IH].
Qed.

Lemma summary_line_effects (f : string) (e : effect) :
  In e (effects (name <- lift (feature f) ;;
                 value <- lift (contribution f) ;;
                 do (markdown_facteur name (direction value) (color value) (abs value)))) ->
  exists name value, e = facteur name value.
Proof.
  destruct (feature f) as [x|name]; simpl; [contradiction|].
  destruct (contribution f) as [x|value]; simpl; [contradiction|].
  intros [<-|[]]. now exists name, value.
Qed.

Lemma shap_factors_radar_effects (score : option float) (shap_factors : list string) (e : effect) :
  In e (effects (shap_factors_radar score shap_factors)) ->
  (exists r theta, e = plotly_radar r theta) \/ (exists name value, e = facteur name value).
Proof.
  unfold shap_factors_radar.
  destruct score as [x|]; [|contradiction].
  destruct shap_factors as [|f0 fs]; [contradiction|].
  destruct (comprehension feature (f0 :: fs)) as [x1|names]; [contradiction|].
  rewrite bind_lift_ok.
  destruct (comprehension contribution (f0 :: fs)) as [x2|values]; [contradiction|].
  rewrite bind_lift_ok.
  destruct (max_val values) as [x3|m]; [contradiction|].
  rewrite bind_lift_ok, bind_do. cbn [effects fst].
  intros [<-|He]; [left; eauto|right].
  revert e He. apply for_each_effects. intros f. apply summary_line_effects.
Qed.

Lemma shap_factors_radar_no_request (score : option float) (shap_factors : list string) (e : effect) :
  In e (effects (shap_factors_radar score shap_factors)) -> is_request e = false.
Proof.
  intros H. apply shap_factors_radar_effects in H.
  destruct H as [[r [theta ->]]|[name [value ->]]]; reflexivity.
Qed.

(** The script from the selection on: the call, the gauge, the client,
    the factors and, unless the factors raise, the table. *)
Lemma scoring_decomposed (s : Session) (view : list Client) (c : Client) :
  exists w score shap_factors,
    api_call (button s) (post s) c = (w, ok (score, shap_factors)) /\
    effects (scoring s view c) =
      w ++ effects (score_gauge score) ++ [st_table_client c]
        ++ effects (shap_factors_radar score shap_factors)
        ++ match outcome_of (shap_factors_radar score shap_factors) with
           | inr _ => [st_dataframe view]
           | inl _ => []
           end /\
    outcome_of (scoring s view c) = outcome_of (shap_factors_radar score shap_factors).
Proof.
  destruct (api_call_ok (button s) (post s) c) as [w [[score shap_factors] [H _]]].
  exists w, score, shap_factors. split; [exact H|].
  unfold scoring. rewrite H.
  destruct (score_gauge_ok score) as [Hg _].
  split.
  - rewrite effects_bind. cbn [effects outcome_of fst snd]. unfold ok. cbv iota beta.
    f_equal. rewrite effects_bind, Hg. f_equal.
    rewrite effects_bind. cbn [effects outcome_of fst snd do ok]. cbv iota beta.
    change ([st_table_client c] ++ ?x) with (st_table_client c :: x). f_equal.
    rewrite effects_bind.
    destruct (outcome_of (shap_factors_radar score shap_factors)); reflexivity.
  - rewrite outcome_bind. cbn [outcome_of snd]. unfold ok. cbv iota beta.
    rewrite outcome_bind, Hg. unfold ok. rewrite outcome_bind.
    cbn [outcome_of snd do ok]. cbv iota beta.
    rewrite outcome_bind.
    destruct (outcome_of (shap_factors_radar score shap_factors)) as [e|[]]; reflexivity.
Qed.

Lemma sidebar_filters_pure (s : Session) (clients : list Client) :
  effects (sidebar_filters s clients) = [].
Proof.
  unfold sidebar_filters.
  repeat match goal with
         | |- context [lift ?r] =>
             destruct r as [?|?]; [reflexivity|rewrite bind_lift_ok]
         end.
  reflexivity.
Qed.

(** ** The select box and the selection *)

Lemma selectbox_in (options : list Z) (picked : option nat) (o : Z) :
  selectbox options picked = Some o -> In o options.
Proof.
  unfold selectbox. destruct picked as [k|].
  - destruct (nth_error options k) as [x|] eqn:E.
    + intros H. injection H as <-. now apply nth_error_In in E.
    + destruct options; simpl; [discriminate|]. intros H. injection H as <-. now left.
  - destruct options; simpl; [discriminate|]. intros H. injection H as <-. now left.
Qed.

Lemma selectbox_none (options : list Z) (picked : option nat) :
  selectbox options picked = None <-> options = [].
Proof.
  unfold selectbox. split.
  - destruct picked as [k|]; [destruct (nth_error options k)|];
      destruct options; simpl; congruence.
  - intros ->. destruct picked as [[|k]|]; reflexivity.
Qed.

Lemma client_some (view : list Client) (id : Z) :
  In id (map client_id view) ->
  exists c, client view (Some id) = ok c /\ client_id c = id /\ In c view.
Proof.
  intros Hin. unfold client. rewrite client_filter, iloc_0.
  destruct (filter (fun c => client_id c =? id) view) as [|c l] eqn:E.
  - apply filter_id_nil in E. contradiction.
  - exists c. split; [reflexivity|].
    assert (Hc : In c (filter (fun c => client_id c =? id) view)) by (rewrite E; now left).
    apply filter_In in Hc. destruct Hc as [Hc1 Hc2]. apply Z.eqb_eq in Hc2. auto.
Qed.

Lemma client_selected (view : list Client) (picked : option nat) :
  (view = [] /\ client view (selectbox (map client_id view) picked) = raise IndexError) \/
  (exists c, client view (selectbox (map client_id view) picked) = ok c /\
             In c view /\ selectbox (map client_id view) picked = Some (client_id c)).
Proof.
  destruct (selectbox (map client_id view) picked) as [id|] eqn:E.
  - right. apply selectbox_in in E as Hin.
    destruct (client_some view id Hin) as [c [H1 [H2 H3]]].
    exists c. rewrite H2. auto.
  - left. apply selectbox_none in E. destruct view; [|discriminate].
    split; reflexivity.
Qed.

Lemma streamlit_app_shape (s : Session) : run_shape s.
Proof.
  destruct (file s) as [rows|] eqn:Hfile.
  - set (clients := rename_index (reset_index rows)).
    pose proof (streamlit_app_loaded s rows Hfile) as Hrun. fold clients in Hrun.
    pose proof (sidebar_filters_pure s clients) as Hpure.
    destruct (sidebar_filters s clients) as [w [e|[[a i] n]]] eqn:Hf;
      cbn [effects fst] in Hpure; subst w.
    + apply (run_no_bounds s rows e Hfile Hf).
      rewrite Hrun. unfold page. fold clients. rewrite Hf. reflexivity.
    + destruct (client_selected (filtered_clients clients a i n) (picked s))
        as [[Hv Hc]|[c [Hc _]]].
      * apply (run_no_client s rows a i n Hfile Hf Hv).
        rewrite Hrun, (page_selection_raises s clients a i n IndexError Hf Hc).
        fold clients. now rewrite Hv.
      * apply (run_client s rows a i n c Hfile Hf Hc).
        rewrite Hrun. apply (page_selected s clients a i n c Hf Hc).
  - apply (run_no_file s Hfile).
    unfold streamlit_app, load_data, load_clients. rewrite Hfile. reflexivity.
Qed.

(** ** Runs as a whole *)

Lemma api_call_effects (b : bool) (post : dict -> outcome) (c : Client) (e : effect) :
  In e (effects (api_call b post c)) ->
  b = true /\
  (e = requests_post API_URL (payload c) 10 \/ exists x, e = st_error_api x).
Proof.
  destruct b; [|intros []]. intros H. split; [reflexivity|].
  destruct (api_call_ok true post c) as [w [answer [E [_ Hw]]]].
  rewrite E in H. now apply Hw.
Qed.

(** What a run that has selected a client can draw. *)
Ltac other_kind :=
  repeat split; try reflexivity; unfold facteur; intros; discriminate.

Lemma scoring_effects (s : Session) (view : list Client) (c : Client) (e : effect) :
  In e (effects (scoring s view c)) ->
  (button s = true /\
   (e = requests_post API_URL (payload c) 10 \/ exists x, e = st_error_api x)) \/
  (is_request e = false /\ e <> st_error_introuvable /\
   forall x, e <> st_error_api x).
Proof.
  destruct (scoring_decomposed s view c) as [w [score [shap_factors [Hcall [He _]]]]].
  rewrite He. clear He. intros H.
  apply in_app_or in H. destruct H as [H|H].
  { left. apply (api_call_effects (button s) (post s) c). now rewrite Hcall. }
  right. apply in_app_or in H. destruct H as [H|H].
  { destruct score as [x|]; simpl in H.
    - destruct (leb lit_0_8 x); [|destruct (leb lit_0_5 x)]; simpl in H;
        destruct H as [<-|[<-|[]]]; other_kind.
    - destruct H as [<-|[]]; other_kind. }
  apply in_app_or in H. destruct H as [[<-|[]]|H]; [other_kind|].
  apply in_app_or in H. destruct H as [H|H].
  { apply shap_factors_radar_effects in H.
    destruct H as [[r [theta ->]]|[name [value ->]]]; other_kind. }
  destruct (outcome_of (shap_factors_radar score shap_factors)); [contradiction|].
  destruct H as [<-|[]]. other_kind.
Qed.

Lemma scoring_requests (s : Session) (view : list Client) (c : Client) :
  count is_request (effects (scoring s view c)) = (if button s then 1 else 0)%nat.
Proof.
  destruct (scoring_decomposed s view c) as [w [score [shap_factors [Hcall [He _]]]]].
  rewrite He.
  destruct (api_call_ok (button s) (post s) c) as [w' [answer [E [Hn _]]]].
  rewrite Hcall in E. injection E as <- _.
  rewrite !count_app, Hn.
  rewrite (count_none is_request (effects (score_gauge score)))
    by apply score_gauge_ok.
  rewrite (count_none is_request (effects (shap_factors_radar score shap_factors)))
    by apply shap_factors_radar_no_request.
  destruct (outcome_of (shap_factors_radar score shap_factors)), (button s); reflexivity.
Qed.

(** X1.  Lines 15 to 19.  When the data file is missing the run writes the
    message that the file cannot be found and stops there: nothing else is
    drawn and no request is sent.  In no other run does that message
    appear. *)
Theorem missing_file_message_iff (s : Session) :
  (file s = None ->
   streamlit_app s = ([st_error_introuvable], raise StopException)) /\
  (In st_error_introuvable (effects (streamlit_app s)) -> file s = None).
Proof.
  destruct (streamlit_app_shape s) as [Hfile Hrun|rows e Hfile _ Hrun
                                       |rows a i n Hfile _ _ Hrun|rows a i n c Hfile _ _ Hrun];
    rewrite Hrun; (split; [intros H; congruence|]); cbn [effects fst].
  - trivial.
  - intros [].
  - intros [H|[]]. discriminate.
  - intros [H|H]; [discriminate|].
    apply scoring_effects in H. destruct H as [[_ [H|[x H]]]|[_ [H _]]]; congruence.
Qed.

(** X2.  Lines 46 to 61.  A run sends at most one request to the scoring
    service, and none at all when the button was not pressed: the script
    never retries and never scores on its own. *)
Theorem at_most_one_request (s : Session) :
  (count is_request (effects (streamlit_app s)) <= 1)%nat /\
  (button s = false -> count is_request (effects (streamlit_app s)) = 0%nat).
Proof.
  destruct (streamlit_app_shape s) as [Hfile Hrun|rows e Hfile _ Hrun
                                       |rows a i n Hfile _ _ Hrun|rows a i n c Hfile _ _ Hrun];
    rewrite Hrun; cbn [effects fst count is_request]; try (split; [lia|reflexivity]).
  rewrite scoring_requests. destruct (button s); split; try lia; congruence.
Qed.

(** X3.  Lines 27 to 55.  Take a catalog whose integer cells are kept by
    float64, the type in which [.iloc[0]] hands over the row of the
    client.  Whatever request a run sends goes to the scoring endpoint
    with a timeout of 10, after the button was pressed, and its body is
    the payload of a client of the catalog that satisfies the three ranges
    in force: a client that the filters exclude is never scored. *)
Theorem request_is_for_a_filtered_client (s : Session) (url : string) (d : dict) (t : Z) :
  (forall rows c, file s = Some rows -> In c (rename_index (reset_index rows)) ->
                  exact_cells c) ->
  In (requests_post url d t) (effects (streamlit_app s)) ->
  button s = true /\ url = API_URL /\ t = 10 /\
  exists rows a i n c,
    file s = Some rows /\
    sidebar_filters s (rename_index (reset_index rows)) = ([], ok (a, i, n)) /\
    In c (rename_index (reset_index rows)) /\
    satisfies a i n c /\
    exact_cells c /\
    d = payload c.
Proof.
  intros Hexact.
  destruct (streamlit_app_shape s) as [Hfile Hrun|rows e Hfile _ Hrun
                                       |rows a i n Hfile _ _ Hrun|rows a i n c Hfile Hf Hc Hrun];
    rewrite Hrun; cbn [effects fst].
  - intros [H|[]]. discriminate.
  - intros [].
  - intros [H|[]]. discriminate.
  - intros [H|H]; [discriminate|].
    apply scoring_effects in H. destruct H as [[Hb [H|[x H]]]|[H _]]; try discriminate.
    injection H as -> -> ->.
    apply client_in_view in Hc. rewrite filtered_clients_filter in Hc.
    apply filter_In in Hc. destruct Hc as [Hin Hs]. apply satisfiesb_true in Hs.
    split; [exact Hb|]. split; [reflexivity|]. split; [reflexivity|].
    exists rows, a, i, n, c.
    split; [exact Hfile|]. split; [exact Hf|]. split; [exact Hin|]. split; [exact Hs|].
    split; [now apply (Hexact rows)|reflexivity].
Qed.

(** An instance: the sample session, whose request times out. *)
Lemma request_is_for_a_filtered_client_witness :
  button (Sample.session (no_response timed_out)) = true /\
  API_URL = API_URL /\ 10 = 10 /\
  exists rows a i n c,
    file (Sample.session (no_response timed_out)) = Some rows /\
    sidebar_filters (Sample.session (no_response timed_out))
                    (rename_index (reset_index rows)) = ([], ok (a, i, n)) /\
    In c (rename_index (reset_index rows)) /\
    satisfies a i n c /\
    exact_cells c /\
    payload Sample.client_0 = payload c.
Proof.
  apply (request_is_for_a_filtered_client (Sample.session (no_response timed_out))
           API_URL (payload Sample.client_0) 10).
  - intros rows c H. injection H as <-.
    intros [<-|[<-|[<-|[]]]]; vm_compute; repeat split; reflexivity.
  - vm_compute. right. left. reflexivity.
Defined.

(** X4.  Lines 37 to 39.  The selection made through the select box fails
    only on an empty view; on any other view it gives a client of the
    view, the one whose id the select box holds, and as long as the user
    has picked nothing that client is the first of the view. *)
Theorem select_box_selection (view : list Client) (picked : option nat) :
  (client view (selectbox (map client_id view) picked) = raise IndexError <-> view = []) /\
  (forall c, client view (selectbox (map client_id view) picked) = ok c ->
             In c view /\ selectbox (map client_id view) picked = Some (client_id c)) /\
  (forall c rest, view = c :: rest ->
                  client view (selectbox (map client_id view) None) = ok c).
Proof.
  split; [|split].
  - destruct (client_selected view picked) as [[Hv Hc]|[c [Hc _]]].
    + tauto.
    + rewrite Hc. split; [discriminate|].
      intros ->.
      assert (E : selectbox (map client_id []) picked = None) by now apply selectbox_none.
      rewrite E, client_none in Hc. discriminate.
  - intros c Hc.
    destruct (client_selected view picked) as [[Hv Hc']|[c' [Hc' H]]];
      rewrite Hc' in Hc; [discriminate|].
    injection Hc as <-. exact H.
  - intros c rest ->. cbn [map selectbox hd_error].
    unfold client. rewrite client_filter, iloc_0.
    cbn [filter]. now rewrite Z.eqb_refl.
Qed.

(** X5.  Lines 33 to 136.  Take the elements of a run whose content
    depends on the data: the count, the request, the messages, the gauge
    and its verdict, the tables, the radar and the lines of the summary.
    In every run that reaches its end the count of the filtered clients
    comes before all the others and the table of the filtered clients
    after all the others, and the count is the number of rows of that
    table; the client shown in between is a row of it. *)
Theorem completed_run_layout (s : Session) :
  outcome_of (streamlit_app s) = ok tt ->
  exists view c mid,
    effects (streamlit_app s) =
      sidebar_clients_filtres (List.length view) :: mid ++ [st_dataframe view] /\
    In (st_table_client c) mid /\
    In c view.
Proof.
  destruct (streamlit_app_shape s) as [Hfile Hrun|rows e Hfile _ Hrun
                                       |rows a i n Hfile _ _ Hrun|rows a i n c Hfile Hf Hc Hrun];
    rewrite Hrun; cbn [effects outcome_of fst snd]; try discriminate.
  set (view := filtered_clients (rename_index (reset_index rows)) a i n) in *.
  destruct (scoring_decomposed s view c) as [w [score [shap_factors [_ [He Ho]]]]].
  rewrite Ho, He. intros Hok. rewrite Hok.
  exists view, c,
    (w ++ effects (score_gauge score) ++ [st_table_client c]
       ++ effects (shap_factors_radar score shap_factors)).
  split; [|split].
  - f_equal. now rewrite <- !app_assoc.
  - apply in_or_app. right. apply in_or_app. right. now left.
  - now apply client_in_view in Hc.
Qed.

(** An instance: the sample session, whose request times out. *)
Lemma completed_run_layout_witness :
  exists view c mid,
    effects (streamlit_app (Sample.session (no_response timed_out))) =
      sidebar_clients_filtres (List.length view) :: mid ++ [st_dataframe view] /\
    In (st_table_client c) mid /\
    In c view.
Proof.
  apply (completed_run_layout (Sample.session (no_response timed_out))).
  vm_compute. reflexivity.
Defined.

(** ** The bounds of the sliders *)

Lemma fold_min_spec (l : list Z) (x : Z) :
  fold_left Z.min l x <= x /\
  (forall y, In y l -> fold_left Z.min l x <= y) /\
  (fold_left Z.min l x = x \/ In (fold_left Z.min l x) l).
Proof.
  revert x. induction l as [|y l IH]; intros x; simpl.
  - split; [lia|]. split; [intros y []|now left].
  - destruct (IH (Z.min x y)) as [H1 [H2 H3]]. split; [lia|]. split.
    + intros z [<-|Hz]; [lia|now apply H2].
    + destruct H3 as [H3|H3]; [|right; now right].
      rewrite H3. destruct (Z.min_spec x y) as [[_ ->]|[_ ->]]; [now left|right; now left].
Qed.

Lemma fold_max_spec (l : list Z) (x : Z) :
  x <= fold_left Z.max l x /\
  (forall y, In y l -> y <= fold_left Z.max l x) /\
  (fold_left Z.max l x = x \/ In (fold_left Z.max l x) l).
Proof.
  revert x. induction l as [|y l IH]; intros x; simpl.
  - split; [lia|]. split; [intros y []|now left].
  - destruct (IH (Z.max x y)) as [H1 [H2 H3]]. split; [lia|]. split.
    + intros z [<-|Hz]; [lia|now apply H2].
    + destruct H3 as [H3|H3]; [|right; now right].
      rewrite H3. destruct (Z.max_spec x y) as [[_ ->]|[_ ->]]; [right; now left|now left].
Qed.

Lemma int_bounds_spec (col : list Z) (lo hi : Z) :
  int_min_int col = ok lo -> int_max_int col = ok hi ->
  (forall v, In v col -> lo <= v <= hi) /\ In lo col /\ In hi col.
Proof.
  destruct col as [|x l]; [discriminate|]. simpl.
  intros Hlo Hhi. injection Hlo as <-. injection Hhi as <-.
  destruct (fold_min_spec l x) as [A1 [A2 A3]].
  destruct (fold_max_spec l x) as [B1 [B2 B3]].
  split; [|split].
  - intros v [<-|Hv]; [lia|]. split; [now apply A2|now apply B2].
  - destruct A3 as [->|A3]; [now left|now right].
  - destruct B3 as [->|B3]; [now left|now right].
Qed.

Lemma bounds_inv {A : Type} (rlo rhi : result A) (lo hi : A) :
  rbind rlo (fun lo => rbind rhi (fun hi => ok (lo, hi))) = ok (lo, hi) ->
  rlo = ok lo /\ rhi = ok hi.
Proof.
  destruct rlo as [e|x]; [discriminate|]. destruct rhi as [e|y]; [discriminate|].
  simpl. unfold ok. intros H. injection H as -> ->. split; reflexivity.
Qed.

(** X6.  Lines 23, 25 and 27 to 31.  The bounds of the age slider and of the
    incident slider are the smallest and the largest value of their column,
    each reached by a client, so that every client lies within them: with
    both sliders at their full range the view is the catalog filtered on
    the income alone. *)
Theorem integer_sliders_span_the_catalog (clients : list Client) (a n : Z * Z) :
  age_bounds clients = ok a ->
  incident_bounds clients = ok n ->
  (forall c, In c clients -> within a (age c) /\ within n (nb_incidents c)) /\
  (exists c, In c clients /\ age c = fst a) /\
  (exists c, In c clients /\ age c = snd a) /\
  (exists c, In c clients /\ nb_incidents c = fst n) /\
  (exists c, In c clients /\ nb_incidents c = snd n) /\
  (forall i c, In c (filtered_clients clients a i n) <->
               In c clients /\ within_float i (revenu c)).
Proof.
  destruct a as [alo ahi], n as [nlo nhi]. unfold age_bounds, incident_bounds.
  intros Ha Hn. apply bounds_inv in Ha, Hn.
  destruct Ha as [Ha1 Ha2], Hn as [Hn1 Hn2].
  destruct (int_bounds_spec _ _ _ Ha1 Ha2) as [A1 [A2 A3]].
  destruct (int_bounds_spec _ _ _ Hn1 Hn2) as [N1 [N2 N3]].
  assert (Hall : forall c, In c clients ->
                           within (alo, ahi) (age c) /\ within (nlo, nhi) (nb_incidents c)).
  { intros c Hc. split; [apply A1|apply N1]; now apply in_map. }
  apply in_map_iff in A2, A3, N2, N3.
  split; [exact Hall|].
  split; [destruct A2 as [c [E H]]; now exists c|].
  split; [destruct A3 as [c [E H]]; now exists c|].
  split; [destruct N2 as [c [E H]]; now exists c|].
  split; [destruct N3 as [c [E H]]; now exists c|].
  intros i c. rewrite filtered_clients_filter, filter_In, satisfiesb_true.
  unfold satisfies. split; [tauto|].
  intros [Hc Hi]. destruct (Hall c Hc). tauto.
Qed.

(** An instance: the sample catalog, with ages from 20 to 60 and from 0
    to 3 incidents. *)
Lemma integer_sliders_span_the_catalog_witness :
  (forall c, In c Sample.clients -> within (20, 60) (age c) /\ within (0, 3) (nb_incidents c)) /\
  (exists c, In c Sample.clients /\ age c = fst (20, 60)) /\
  (exists c, In c Sample.clients /\ age c = snd (20, 60)) /\
  (exists c, In c Sample.clients /\ nb_incidents c = fst (0, 3)) /\
  (exists c, In c Sample.clients /\ nb_incidents c = snd (0, 3)) /\
  (forall i c, In c (filtered_clients Sample.clients (20, 60) i (0, 3)) <->
               In c Sample.clients /\ within_float i (revenu c)).
Proof.
  apply (integer_sliders_span_the_catalog Sample.clients (20, 60) (0, 3));
    vm_compute; reflexivity.
Defined.

Lemma fold_fmin_finite (l : list float) (x : float) :
  is_finite x = true -> (forall y, In y l -> is_finite y = true) ->
  is_finite (fold_left fmin l x) = true.
Proof.
  revert x. induction l as [|y l IH]; intros x Hx Hl; simpl; [exact Hx|].
  apply IH; [|intros z Hz; apply Hl; now right].
  unfold fmin. destruct (ltb y x); [apply Hl; now left|exact Hx].
Qed.

Lemma fold_fmax_finite (l : list float) (x : float) :
  is_finite x = true -> (forall y, In y l -> is_finite y = true) ->
  is_finite (fold_left fmax l x) = true.
Proof.
  revert x. induction l as [|y l IH]; intros x Hx Hl; simpl; [exact Hx|].
  apply IH; [|intros z Hz; apply Hl; now right].
  unfold fmax. destruct (ltb x y); [apply Hl; now left|exact Hx].
Qed.

Lemma filter_finite (col : list float) :
  (forall y, In y col -> is_finite y = true) ->
  filter (fun v => negb (is_nan v)) col = col.
Proof.
  induction col as [|x col IH]; intros H; simpl; [reflexivity|].
  assert (Hx : is_finite x = true) by (apply H; now left).
  destruct x; try discriminate; simpl; f_equal; apply IH; intros y Hy; apply H; now right.
Qed.

Lemma to_int_finite (x : float) : is_finite x = true -> exists z, to_int x = ok z.
Proof. destruct x; try discriminate; intros _; eexists; reflexivity. Qed.

(** X7.  Lines 23 to 25.  A catalog without rows ends the run at line 23
    with ValueError ([int] of the nan minimum): no count, no message, no
    request, no chart and no table is produced.  On a catalog with rows
    whose incomes are all numbers, the six bounds are computed without an
    exception; the sliders then accept them when they are safe integers
    of JavaScript, and each gives the range the user has set, or its
    default, (18, 70), (1000, 100000) or (0, 10); when one of them is
    not, the run ends with StreamlitJSNumberBoundsError. *)
Theorem sliders_need_rows (s : Session) :
  (file s = Some [] -> streamlit_app s = ([], raise ValueError)) /\
  (forall clients,
      clients <> [] ->
      (forall c, In c clients -> is_finite (revenu c) = true) ->
      exists a i n,
        age_bounds clients = ok a /\
        income_bounds clients = ok i /\
        incident_bounds clients = ok n /\
        (validate_int_bounds (fst a) (snd a) (18, 70) = true ->
         validate_int_bounds (fst i) (snd i) (1000, 100000) = true ->
         validate_int_bounds (fst n) (snd n) (0, 10) = true ->
         sidebar_filters s clients =
         ([], ok (get (age_slider s) (18, 70),
                  get (income_slider s) (1000, 100000),
                  get (incident_slider s) (0, 10)))) /\
        (validate_int_bounds (fst a) (snd a) (18, 70) = false \/
         validate_int_bounds (fst i) (snd i) (1000, 100000) = false \/
         validate_int_bounds (fst n) (snd n) (0, 10) = false ->
         sidebar_filters s clients = ([], raise StreamlitJSNumberBoundsError))).
Proof.
  split.
  - intros H. rewrite (streamlit_app_loaded s [] H). reflexivity.
  - intros clients Hne Hfin.
    destruct clients as [|c0 cs]; [contradiction|].
    assert (Hcol : forall y, In y (map revenu (c0 :: cs)) -> is_finite y = true).
    { intros y Hy. apply in_map_iff in Hy. destruct Hy as [c [<- Hc]]. now apply Hfin. }
    unfold sidebar_filters, age_bounds, incident_bounds, income_bounds.
    unfold series_min, series_max. rewrite (filter_finite _ Hcol).
    cbn [map int_min_int int_max_int] in *.
    destruct (to_int_finite (fold_left fmin (map revenu cs) (revenu c0))) as [lo Hlo].
    { apply fold_fmin_finite; [apply Hcol; now left|intros y Hy; apply Hcol; now right]. }
    destruct (to_int_finite (fold_left fmax (map revenu cs) (revenu c0))) as [hi Hhi].
    { apply fold_fmax_finite; [apply Hcol; now left|intros y Hy; apply Hcol; now right]. }
    rewrite Hlo, Hhi. cbn [rbind ok].
    eexists _, _, _. split; [reflexivity|]. split; [reflexivity|]. split; [reflexivity|].
    cbn [fst snd]. rewrite !bind_lift_ok. unfold slider. cbn [fst snd]. split.
    + intros H1 H2 H3.
      rewrite H1. cbv iota. rewrite !bind_lift_ok. cbn [fst snd].
      rewrite H2. cbv iota. rewrite !bind_lift_ok. cbn [fst snd].
      rewrite H3. cbv iota. rewrite bind_lift_ok. reflexivity.
    + intros H.
      destruct (validate_int_bounds _ _ (18, 70)); [|reflexivity].
      cbv iota. rewrite !bind_lift_ok. cbn [fst snd].
      destruct (validate_int_bounds _ _ (1000, 100000)); [|reflexivity].
      cbv iota. rewrite !bind_lift_ok. cbn [fst snd].
      destruct (validate_int_bounds _ _ (0, 10)); [|reflexivity].
      destruct H as [H|[H|H]]; discriminate.
Qed.

(** ** Reading an explanation *)

Lemma split_on_before (sep : ascii) (s rest : string) :
  ~ In sep (list_ascii_of_string s) ->
  Str.split_on sep (s ++ String sep rest)%string = s :: Str.split_on sep rest.
Proof.
  induction s as [|c s IH]; simpl; intros H.
  - now rewrite Ascii.eqb_refl.
  - destruct (Ascii.eqb_spec c sep) as [E|E]; [elim H; now left|].
    rewrite IH; [reflexivity|]. intros Hin. apply H. now right.
Qed.

Lemma split_token (token : string) : is_token token -> Str.split token = [token].
Proof.
  intros [Hne [_ Hws]]. induction token as [|c s IH]; [contradiction|].
  simpl. rewrite (Hws c (or_introl eq_refl)).
  destruct s as [|c' s']; [reflexivity|].
  rewrite (Hws c' (or_intror (or_introl eq_refl))).
  rewrite IH; [reflexivity|discriminate|].
  intros x Hx. apply Hws. now right.
Qed.

Lemma split_space (c : ascii) (s : string) :
  Str.isspace c = true -> Str.split (String c s) = Str.split s.
Proof. intros H. simpl. now rewrite H. Qed.

Lemma split_two (c c' : ascii) (s : string) :
  Str.isspace c = false ->
  Str.split (String c (String c' s)) =
  if Str.isspace c' then String c EmptyString :: Str.split (String c' s)
  else match Str.split (String c' s) with
       | w :: ws => String c w :: ws
       | [] => [String c EmptyString]
       end.
Proof. intros H. simpl. now rewrite H. Qed.

Lemma split_before_token (head : string) (sp : ascii) (token : string) :
  Str.isspace sp = true -> is_token token ->
  Str.split (head ++ String sp token)%string = Str.split head ++ [token].
Proof.
  intros Hsp Htok. induction head as [|c s IH].
  - change (EmptyString ++ String sp token)%string with (String sp token).
    rewrite (split_space sp token Hsp). now apply split_token.
  - change (String c s ++ String sp token)%string
      with (String c (s ++ String sp token)%string).
    destruct (Str.isspace c) eqn:Ec; [now rewrite !split_space|].
    destruct s as [|c' s'].
    + change (EmptyString ++ String sp token)%string with (String sp token) in *.
      rewrite (split_two c sp token Ec), Hsp, IH. simpl. now rewrite Ec.
    + change (String c' s' ++ String sp token)%string
        with (String c' (s' ++ String sp token)%string) in *.
      rewrite (split_two c c' _ Ec), (split_two c c' _ Ec), IH.
      destruct (Str.isspace c') eqn:Ec'; [reflexivity|].
      assert (Hne : Str.split (String c' s') <> []).
      { apply (split_nonempty c'); [now left|exact Ec']. }
      destruct (Str.split (String c' s')) as [|w ws]; [contradiction|reflexivity].
Qed.

Lemma getitem_last_snoc {A : Type} (l : list A) (x : A) :
  Str.getitem_last (l ++ [x]) = ok x.
Proof. unfold Str.getitem_last. now rewrite rev_app_distr. Qed.

(** X8.  Lines 107 and 108 (and 128 and 129).  In an explanation whose
    first quote opens the feature name, the name read is the text up to
    the next quote, spaces included; and when the explanation ends with a
    space followed by a token, a non-empty ASCII text without white
    space, the contribution read is what [float] makes of that token,
    whatever stands before the space. *)
Theorem explanation_is_read (name token : string) :
  (forall before rest,
      no_quote before -> no_quote name ->
      feature (before ++ String "'" (name ++ String "'" rest))%string = ok name) /\
  (forall head,
      is_token token ->
      contribution (head ++ String " " token)%string = Str.float_of_str token).
Proof.
  split.
  - intros before rest Hb Hn. unfold feature.
    rewrite (split_on_before _ before _ Hb), (split_on_before _ name _ Hn).
    reflexivity.
  - intros head Htok. unfold contribution.
    rewrite (split_before_token head " " token eq_refl Htok), getitem_last_snoc.
    reflexivity.
Qed.

(** ** The summary of the factors *)

Lemma for_each_effects_in {A : Type} (P : effect -> Prop) (body : A -> M unit) (l : list A) :
  (forall x e, In x l -> In e (effects (body x)) -> P e) ->
  forall e, In e (effects (for_each l body)) -> P e.
Proof.
  induction l as [|x l IH]; simpl; intros H e He; [contradiction|].
  rewrite effects_bind in He. apply in_app_or in He. destruct He as [He|He].
  - apply (H x); [now left|exact He].
  - destruct (outcome_of (body x)); [contradiction|].
    apply IH; [|exact He]. intros y e' Hy. apply H. now right.
Qed.

Lemma abs_not_negative (value : float) : ltb (abs value) zero = false.
Proof. unfold abs, zero. by_float_cases. Qed.

Lemma summary_lines (l : list string) (e : effect) :
  In e (effects (for_each l (fun f =>
    name <- lift (feature f) ;;
    value <- lift (contribution f) ;;
    do (markdown_facteur name (direction value) (color value) (abs value))))) ->
  exists f name value,
    In f l /\ feature f = ok name /\ contribution f = ok value /\
    e = facteur name value.
Proof.
  revert e. apply for_each_effects_in. intros f e Hf He.
  destruct (feature f) as [y|name] eqn:En; simpl in He; [contradiction|].
  destruct (contribution f) as [y|value] eqn:Ev; simpl in He; [contradiction|].
  destruct He as [<-|[]]. exists f, name, value. auto.
Qed.

(** X9.  Lines 127 to 132.  Every line of the summary comes from one
    explanation of the answer: it bears the feature name of that
    explanation and the absolute value of its contribution, which is never
    below zero, and its colour goes with its direction: green and reducing
    the risk when the contribution is below zero, red and increasing it
    otherwise. *)
Theorem summary_line_origin (score : option float) (shap_factors : list string)
  (name direction_text color_text : string) (magnitude : float) :
  In (markdown_facteur name direction_text color_text magnitude)
     (effects (shap_factors_radar score shap_factors)) ->
  exists f value,
    In f shap_factors /\ feature f = ok name /\ contribution f = ok value /\
    magnitude = abs value /\ ltb magnitude zero = false /\
    ((ltb value zero = true /\ direction_text = "réduit le risque"
      /\ color_text = "#4CAF50") \/
     (ltb value zero = false /\ direction_text = "augmente le risque"
      /\ color_text = "#F44336")).
Proof.
  unfold shap_factors_radar.
  destruct score as [x|]; [|contradiction].
  destruct shap_factors as [|f0 fs]; [contradiction|].
  destruct (comprehension feature (f0 :: fs)) as [x1|names]; [contradiction|].
  rewrite bind_lift_ok.
  destruct (comprehension contribution (f0 :: fs)) as [x2|values]; [contradiction|].
  rewrite bind_lift_ok.
  destruct (max_val values) as [x3|m]; [contradiction|].
  rewrite bind_lift_ok, bind_do. cbn [effects fst].
  intros [H|H]; [discriminate|].
  apply summary_lines in H. destruct H as [f [name' [value [Hf [En [Ev Heq]]]]]].
  injection Heq as -> -> -> ->.
  exists f, value. split; [exact Hf|]. split; [exact En|]. split; [exact Ev|].
  split; [reflexivity|]. split; [apply abs_not_negative|].
  unfold direction, color. rewrite of_int_0.
  destruct (ltb value zero); [left|right]; auto.
Qed.

(** An instance: the line of [revenu] in the answer of two explanations. *)
Lemma summary_line_origin_witness :
  exists f value,
    In f ["'revenu' contributes -0.10"; "'age' contributes 0.30"] /\
    feature f = ok "revenu" /\ contribution f = ok value /\
    Sample.plus_0_10 = abs value /\ ltb Sample.plus_0_10 zero = false /\
    ((ltb value zero = true /\ "réduit le risque" = "réduit le risque"
      /\ "#4CAF50" = "#4CAF50") \/
     (ltb value zero = false /\ "réduit le risque" = "augmente le risque"
      /\ "#4CAF50" = "#F44336")).
Proof.
  apply (summary_line_origin (Some lit_0_8)
           ["'revenu' contributes -0.10"; "'age' contributes 0.30"]
           "revenu" "réduit le risque" "#4CAF50" Sample.plus_0_10).
  vm_compute. right. left. reflexivity.
Defined.

(** ** The verdict *)

Lemma verdict_of (score : float) :
  effects (score_gauge (Some score)) =
  [plotly_gauge (mul score (of_int 100));
   if leb lit_0_8 score then st_success_eligible
   else if leb lit_0_5 score then st_warning_potentiellement_eligible
   else st_error_non_eligible].
Proof.
  simpl. destruct (leb lit_0_8 score); [|destruct (leb lit_0_5 score)]; reflexivity.
Qed.

Lemma half_below_four_fifths : leb lit_0_5 lit_0_8 = true.
Proof. reflexivity. Qed.

(** X10.  Lines 69 to 91.  A score is shown as a gauge at a hundred times
    its value, followed by one verdict: eligible from 0.8 on, possibly
    eligible from 0.5 on and below 0.8, not eligible otherwise, which is
    also the verdict of a score that is not a number.  The bounds 0.8 and
    0.5 belong to the better verdict, and a higher score never gets a worse
    verdict. *)
Theorem verdict_by_thresholds (score : float) :
  (exists verdict,
      score_gauge (Some score) =
        ([plotly_gauge (mul score (of_int 100)); verdict], ok tt) /\
      (verdict = st_success_eligible <-> leb lit_0_8 score = true) /\
      (verdict = st_warning_potentiellement_eligible <->
       leb lit_0_5 score = true /\ leb lit_0_8 score = false) /\
      (verdict = st_error_non_eligible <-> leb lit_0_5 score = false)) /\
  In st_success_eligible (effects (score_gauge (Some lit_0_8))) /\
  In st_warning_potentiellement_eligible (effects (score_gauge (Some lit_0_5))) /\
  In st_error_non_eligible (effects (score_gauge (Some S754_nan))) /\
  (forall higher,
      leb score higher = true ->
      (In st_success_eligible (effects (score_gauge (Some score))) ->
       In st_success_eligible (effects (score_gauge (Some higher)))) /\
      (In st_error_non_eligible (effects (score_gauge (Some higher))) ->
       In st_error_non_eligible (effects (score_gauge (Some score))))).
Proof.
  assert (H58 : forall x, leb lit_0_8 x = true -> leb lit_0_5 x = true).
  { intros x. apply leb_trans, half_below_four_fifths. }
  split; [|split; [|split; [|split]]].
  - exists (if leb lit_0_8 score then st_success_eligible
            else if leb lit_0_5 score then st_warning_potentiellement_eligible
            else st_error_non_eligible).
    split.
    { rewrite (M_eta (score_gauge (Some score))), verdict_of.
      now rewrite (proj1 (score_gauge_ok (Some score))). }
    specialize (H58 score).
    destruct (leb lit_0_8 score); [rewrite H58 by reflexivity|destruct (leb lit_0_5 score)];
      repeat split; intros; try discriminate; try reflexivity;
      try match goal with H : _ /\ _ |- _ => destruct H end; discriminate.
  - vm_compute. auto.
  - vm_compute. auto.
  - vm_compute. auto.
  - intros higher Hle. rewrite !verdict_of. split.
    + intros [H|[H|[]]]; [discriminate|].
      destruct (leb lit_0_8 score) eqn:E;
        [|destruct (leb lit_0_5 score); discriminate].
      rewrite (leb_trans _ _ _ E Hle). right. now left.
    + intros [H|[H|[]]]; [discriminate|].
      destruct (leb lit_0_8 higher) eqn:E8; [discriminate|].
      destruct (leb lit_0_5 higher) eqn:E5; [discriminate|].
      destruct (leb lit_0_8 score) eqn:F8;
        [rewrite (leb_trans _ _ _ F8 Hle) in E8; discriminate|].
      destruct (leb lit_0_5 score) eqn:F5;
        [rewrite (leb_trans _ _ _ F5 Hle) in E5; discriminate|].
      right. now left.
Qed.

(** ** The rim of the radar *)

Lemma div_eucl_shifted (m : positive) :
  Z.div_eucl (Z.shiftl (Zpos m) 53) (Zpos m) = (2 ^ 53, 0).
Proof.
  rewrite Z.shiftl_mul_pow2 by lia.
  pose proof (Z.div_eucl_eq (Zpos m * 2 ^ 53) (Zpos m)) as H.
  pose proof (Z.mod_pos_bound (Zpos m * 2 ^ 53) (Zpos m)) as B.
  unfold Z.modulo, Z.div in *.
  destruct (Z.div_eucl (Z.pos m * 2 ^ 53) (Z.pos m)) as [q r].
  assert (Hq : q = 2 ^ 53) by nia.
  assert (Hr : r = 0) by nia.
  subst. reflexivity.
Qed.

(** A finite number divided by a number of the same magnitude is 1 or -1. *)
Lemma div_same_magnitude (s s' : bool) (m : positive) (e : Z) :
  abs (div (S754_finite s m e) (S754_finite s' m e)) = one.
Proof.
  unfold div, SFdiv, SFdiv_core_binary.
  replace (Zdigits2 (Z.pos m) + e - (Zdigits2 (Z.pos m) + e)) with 0 by lia.
  replace (e - e) with 0 by lia.
  change (Z.min (fexp prec emax 0) 0) with (-53).
  change (0 - -53) with 53.
  cbv beta iota zeta.
  rewrite div_eucl_shifted.
  unfold new_location.
  destruct (Z.even (Z.pos m)); destruct (xorb s s'); reflexivity.
Qed.

Lemma finite_not_nan (x : float) : is_finite x = true -> is_nan x = false.
Proof. now destruct x. Qed.

(** X11.  Lines 110 to 115.  When the contributions are numbers and not all
    zero, the divisor is the magnitude of one of them, a number that is
    not zero, and that contribution is drawn at exactly 1.0: the radar
    always reaches its rim. *)
Theorem radar_reaches_one (c0 : float) (cs : list float) :
  (forall c, In c (c0 :: cs) -> is_finite c = true) ->
  (exists c, In c (c0 :: cs) /\ is_zero c = false) ->
  exists m c,
    max_val (c0 :: cs) = ok m /\
    is_finite m = true /\ is_zero m = false /\
    In c (c0 :: cs) /\ abs c = m /\ abs (div c m) = one /\
    In one (map abs (contributions_norm (c0 :: cs) m)).
Proof.
  intros Hfin [z [Hz Hnz]].
  unfold max_val, py_max. cbn [map rbind].
  set (m := max_from (abs c0) (map abs cs)).
  destruct (max_from_spec (map abs cs) (abs c0)) as [Hin [H0 Hall]].
  { apply abs_not_nan, finite_not_nan, Hfin. now left. }
  { intros x Hx. apply in_map_iff in Hx. destruct Hx as [y [<- Hy]].
    apply abs_not_nan, finite_not_nan, Hfin. now right. }
  fold m in Hin, H0, Hall.
  assert (Hc : exists c, In c (c0 :: cs) /\ abs c = m).
  { destruct Hin as [Hin|Hin]; [exists c0; split; [now left|now symmetry]|].
    apply in_map_iff in Hin. destruct Hin as [c [E Hc]]. exists c. split; [now right|exact E]. }
  destruct Hc as [c [Hc Habs]].
  assert (Hle : leb (abs z) m = true).
  { destruct Hz as [<-|Hz]; [exact H0|]. apply Hall. now apply in_map. }
  assert (Hm : is_zero m = false).
  { destruct (is_zero m) eqn:E; [|reflexivity].
    rewrite (leb_abs_zero z m Hnz (finite_not_nan z (Hfin z Hz)) E) in Hle. discriminate. }
  exists m, c. unfold rbind, ok, truthy. rewrite Hm. cbn [negb].
  assert (Hdiv : abs (div c m) = one).
  { pose proof (Hfin c Hc) as Fc. rewrite <- Habs in Hm |- *.
    destruct c as [sc| | |sc mc ec]; try discriminate. apply div_same_magnitude. }
  split; [reflexivity|]. split; [rewrite <- Habs; pose proof (Hfin c Hc); now destruct c|].
  split; [reflexivity|]. split; [exact Hc|]. split; [exact Habs|]. split; [exact Hdiv|].
  unfold contributions_norm. rewrite map_map. apply in_map_iff. exists c. auto.
Qed.

(** An instance: the contributions -0.10 and 0.30. *)
Lemma radar_reaches_one_witness :
  exists m c,
    max_val [Sample.minus_0_10; Sample.plus_0_30] = ok m /\
    is_finite m = true /\ is_zero m = false /\
    In c [Sample.minus_0_10; Sample.plus_0_30] /\ abs c = m /\ abs (div c m) = one /\
    In one (map abs (contributions_norm [Sample.minus_0_10; Sample.plus_0_30] m)).
Proof.
  apply (radar_reaches_one Sample.minus_0_10 [Sample.plus_0_30]).
  - intros c [<-|[<-|[]]]; reflexivity.
  - exists Sample.plus_0_30. split; [right; now left|reflexivity].
Defined.

(** ** The answer of the service *)

(** X12.  Lines 54 to 61.  The call never raises, whatever the service
    does.  Take an answer under a status that is no error: when its body
    is a JSON object of the shape the service promises, it is read as it
    is and no error message is written; when its body is not JSON, it is
    reported like any other failure and leaves no score and no factor.
    Among these answers and the failures to answer, an error message is
    written exactly when the call brings no such object under a status
    that is no error. *)
Theorem api_call_reads_or_reports (post : dict -> outcome) (c : Client) :
  (forall b, exists w answer, api_call b post c = (w, ok answer)) /\
  (forall r resp,
      post (payload c) = response r -> ~ (400 <= status_code r < 600) ->
      body r = Some resp ->
      api_call true post c = ([requests_post API_URL (payload c) 10], ok (interpret resp))) /\
  (forall r,
      post (payload c) = response r -> ~ (400 <= status_code r < 600) ->
      body r = None ->
      api_call true post c =
      ([requests_post API_URL (payload c) 10; st_error_api JSONDecodeError], ok (None, []))) /\
  ((exists e, In (st_error_api e) (effects (api_call true post c))) <->
   ~ (exists r resp, post (payload c) = response r /\
                     ~ (400 <= status_code r < 600) /\ body r = Some resp)).
Proof.
  assert (Hst : forall r, ~ (400 <= status_code r < 600) ->
                          (400 <=? status_code r) && (status_code r <? 600) = false).
  { intros r H. destruct ((400 <=? status_code r) && (status_code r <? 600)) eqn:E;
      [|reflexivity].
    apply andb_true_iff in E. rewrite Z.leb_le, Z.ltb_lt in E. contradiction. }
  split; [|split; [|split]].
  - intros b. destruct (api_call_ok b post c) as [w [answer [H _]]]. eauto.
  - intros r resp Hp Hs Hb. now rewrite api_call_cases, Hp, (Hst r Hs), Hb.
  - intros r Hp Hs Hb. now rewrite api_call_cases, Hp, (Hst r Hs), Hb.
  - rewrite api_call_cases. destruct (post (payload c)) as [f|r].
    + split.
      * intros _ [r [resp [H _]]]. discriminate.
      * intros _. eexists. right. left. reflexivity.
    + destruct ((400 <=? status_code r) && (status_code r <? 600)) eqn:E.
      * split.
        -- intros _ [r' [resp [H [Hs _]]]]. injection H as <-.
           rewrite (Hst r Hs) in E. discriminate.
        -- intros _. eexists. right. left. reflexivity.
      * destruct (body r) as [resp|] eqn:Eb.
        -- split.
           ++ intros [e [H|[]]]. discriminate.
           ++ intros H. elim H. exists r, resp. split; [reflexivity|]. split; [|exact Eb].
              intros [H1 H2]. apply Z.leb_le in H1. apply Z.ltb_lt in H2.
              rewrite H1, H2 in E. discriminate.
        -- split.
           ++ intros _ [r' [resp [H [_ Hb]]]]. injection H as <-. congruence.
           ++ intros _. eexists. right. left. reflexivity.
Qed.

(** ** The ids of a view *)

Lemma increasing_positions (n k : nat) : increasing (map Z.of_nat (seq k n)).
Proof.
  revert k. induction n as [|n IH]; intros k; simpl; [exact I|].
  split; [|apply IH].
  intros y Hy. apply in_map_iff in Hy. destruct Hy as [j [<- Hj]].
  apply in_seq in Hj. lia.
Qed.

Lemma increasing_filter (keep : Client -> bool) (l : list Client) :
  increasing (map client_id l) -> increasing (map client_id (filter keep l)).
Proof.
  induction l as [|x l IH]; simpl; [trivial|]. intros [Hx Hl].
  destruct (keep x); simpl; [split|]; auto.
  intros y Hy. apply Hx. apply in_map_iff in Hy. destruct Hy as [c [E Hc]].
  apply in_map_iff. exists c. split; [exact E|]. apply filter_In in Hc. tauto.
Qed.

(** X13.  Lines 16, 27 to 31 and 37.  The ids that the select box offers,
    those of the filtered view, are positions of the catalog, come in
    strictly increasing order and thus appear once each. *)
Theorem select_box_ids_increasing (rows : list Row) (a i n : Z * Z) :
  let view := filtered_clients (rename_index (reset_index rows)) a i n in
  increasing (map client_id view) /\
  NoDup (map client_id view) /\
  (forall id, In id (map client_id view) -> 0 <= id < Z.of_nat (List.length rows)) /\
  (List.length view <= List.length rows)%nat.
Proof.
  cbv zeta. split; [|split; [|split]].
  - rewrite filtered_clients_filter. apply increasing_filter.
    rewrite client_ids_of_clients. apply increasing_positions.
  - apply view_ids_NoDup.
  - intros id Hid. apply in_map_iff in Hid. destruct Hid as [c [<- Hc]].
    rewrite filtered_clients_filter in Hc. apply filter_In in Hc. destruct Hc as [Hc _].
    apply (in_map client_id) in Hc. rewrite client_ids_of_clients in Hc.
    apply in_map_iff in Hc. destruct Hc as [k [<- Hk]]. apply in_seq in Hk. lia.
  - rewrite filtered_clients_filter.
    assert (L : List.length (rename_index (reset_index rows)) = List.length rows).
    { rewrite <- (rows_of_clients rows) at 2. now rewrite length_map. }
    rewrite <- L. clear L. induction (rename_index (reset_index rows)) as [|x l IH];
      simpl; [lia|]. destruct (satisfiesb a i n x); simpl; lia.
Qed.

(** ** Narrowing the ranges *)

Lemma filter_refines {A : Type} (p q : A -> bool) (l : list A) :
  (forall x, p x = true -> q x = true) -> filter p (filter q l) = filter p l.
Proof.
  intros H. induction l as [|x l IH]; simpl; [reflexivity|].
  destruct (q x) eqn:Eq; simpl.
  - destruct (p x); now rewrite IH.
  - destruct (p x) eqn:Ep; [rewrite (H x Ep) in Eq; discriminate|exact IH].
Qed.

(** X14.  Lines 27 to 31.  Filtering a view again gives what filtering the
    catalog gives, when the age range and the incident range are the same
    or narrower and the income range is the same: under narrower ranges
    the view is a subsequence of the view under the wider ones, so that
    narrowing a slider only removes clients and never reorders them. *)
Theorem narrower_ranges_refine (clients : list Client) (a a' i n n' : Z * Z) :
  fst a' <= fst a -> snd a <= snd a' ->
  fst n' <= fst n -> snd n <= snd n' ->
  filtered_clients (filtered_clients clients a' i n') a i n =
    filtered_clients clients a i n /\
  subsequence (filtered_clients clients a i n) (filtered_clients clients a' i n') /\
  filtered_clients (filtered_clients clients a i n) a i n = filtered_clients clients a i n.
Proof.
  intros A1 A2 N1 N2.
  assert (E : filtered_clients (filtered_clients clients a' i n') a i n =
              filtered_clients clients a i n).
  { rewrite !filtered_clients_filter. apply filter_refines.
    intros c. rewrite !satisfiesb_true. unfold satisfies, within. intuition lia. }
  split; [exact E|]. split.
  - rewrite <- E. rewrite (filtered_clients_filter (filtered_clients clients a' i n')).
    apply filter_subsequence.
  - rewrite !filtered_clients_filter. now apply filter_refines.
Qed.

(** An instance: the age range (18, 50) within the default (18, 70). *)
Lemma narrower_ranges_refine_witness :
  filtered_clients (filtered_clients Sample.clients (18, 70) (1000, 100000) (0, 10))
                   (18, 50) (1000, 100000) (0, 10) =
    filtered_clients Sample.clients (18, 50) (1000, 100000) (0, 10) /\
  subsequence (filtered_clients Sample.clients (18, 50) (1000, 100000) (0, 10))
              (filtered_clients Sample.clients (18, 70) (1000, 100000) (0, 10)) /\
  filtered_clients (filtered_clients Sample.clients (18, 50) (1000, 100000) (0, 10))
                   (18, 50) (1000, 100000) (0, 10) =
    filtered_clients Sample.clients (18, 50) (1000, 100000) (0, 10).
Proof.
  apply (narrower_ranges_refine Sample.clients (18, 50) (18, 70) (1000, 100000) (0, 10) (0, 10));
    simpl; lia.
Defined.

(** ** When the factors are drawn *)

Lemma comprehension_ok_inv {A B : Type} (f : A -> result B) (l : list A) (ys : list B) :
  comprehension f l = ok ys ->
  List.length ys = List.length l /\ forall x, In x l -> exists y, f x = ok y.
Proof.
  revert ys. induction l as [|x l IH]; simpl; intros ys H.
  - injection H as <-. split; [reflexivity|intros x []].
  - destruct (f x) as [e|y] eqn:E; [discriminate|]. simpl in H.
    destruct (comprehension f l) as [e|ys']; [discriminate|].
    injection H as <-. destruct (IH ys' eq_refl) as [L H].
    split; [simpl; now rewrite L|].
    intros z [<-|Hz]; [now exists y|now apply H].
Qed.

Lemma quoted_feature (f : string) :
  In "'"%char (list_ascii_of_string f) <-> exists name, feature f = ok name.
Proof.
  unfold feature, Str.getitem. split.
  - intros H. destruct (split_on_present _ _ H) as [x Hx]. rewrite Hx. now exists x.
  - intros [name H]. destruct (nth_error _ 1) as [x|] eqn:N; [|discriminate].
    now apply split_on_second in N.
Qed.

Lemma numeric_token_contribution (f : string) :
  numeric_token f <-> exists value, contribution f = ok value.
Proof.
  unfold numeric_token, contribution. split.
  - intros [token [value [H1 H2]]]. exists value. now rewrite H1.
  - intros [value H]. destruct (Str.getitem_last (Str.split f)) as [e|token]; [discriminate|].
    now exists token, value.
Qed.

(** When the section of the factors draws its radar, and what it draws
    with it. *)
Lemma radar_drawn_iff (score : option float) (shap_factors : list string) :
  ((exists r theta, In (plotly_radar r theta)
                       (effects (shap_factors_radar score shap_factors))) <->
   (exists x, score = Some x) /\ shap_factors <> [] /\
   (forall f, In f shap_factors ->
              (exists name, feature f = ok name) /\
              (exists value, contribution f = ok value))) /\
  (forall r theta,
      In (plotly_radar r theta) (effects (shap_factors_radar score shap_factors)) ->
      List.length r = List.length shap_factors /\
      List.length theta = List.length shap_factors /\
      exists lines,
        shap_factors_radar score shap_factors = (plotly_radar r theta :: lines, ok tt) /\
        List.length lines = List.length shap_factors /\
        (forall e, In e lines -> exists name value, e = facteur name value)).
Proof.
  assert (Hdrawn : forall x f0 fs names values,
             comprehension feature (f0 :: fs) = ok names ->
             comprehension contribution (f0 :: fs) = ok values ->
             exists m,
               shap_factors_radar (Some x) (f0 :: fs) =
               (plotly_radar (map abs (contributions_norm values m)) names
                  :: map (fun nv => facteur (fst nv) (snd nv)) (combine names values),
                ok tt)).
  { intros x f0 fs names values Hn Hv.
    destruct (well_formed_explanations_drawn x f0 fs names values Hn Hv) as [m [_ H]].
    now exists m. }
  assert (Hwf : (exists r theta, In (plotly_radar r theta)
                                    (effects (shap_factors_radar score shap_factors))) ->
                exists x f0 fs names values,
                  score = Some x /\ shap_factors = f0 :: fs /\
                  comprehension feature (f0 :: fs) = ok names /\
                  comprehension contribution (f0 :: fs) = ok values).
  { intros [r [theta H]]. unfold shap_factors_radar in H.
    destruct score as [x|]; [|contradiction].
    destruct shap_factors as [|f0 fs]; [contradiction|].
    destruct (comprehension feature (f0 :: fs)) as [x1|names] eqn:En; [contradiction|].
    rewrite bind_lift_ok in H.
    destruct (comprehension contribution (f0 :: fs)) as [x2|values] eqn:Ev; [contradiction|].
    exists x, f0, fs, names, values. auto. }
  split; [split|].
  - intros H. destruct (Hwf H) as [x [f0 [fs [names [values [-> [-> [Hn Hv]]]]]]]].
    split; [now exists x|]. split; [discriminate|].
    intros f Hf. split.
    + now apply (proj2 (comprehension_ok_inv _ _ _ Hn)).
    + now apply (proj2 (comprehension_ok_inv _ _ _ Hv)).
  - intros [[x ->] [Hne Hall]].
    destruct shap_factors as [|f0 fs]; [contradiction|].
    destruct (comprehension_ok feature (f0 :: fs)) as [names [Hn _]];
      [intros f Hf; apply (Hall f Hf)|].
    destruct (comprehension_ok contribution (f0 :: fs)) as [values [Hv _]];
      [intros f Hf; apply (Hall f Hf)|].
    destruct (Hdrawn x f0 fs names values Hn Hv) as [m H].
    rewrite H. eexists _, _. left. reflexivity.
  - intros r theta H.
    destruct (Hwf (ex_intro _ r (ex_intro _ theta H)))
      as [x [f0 [fs [names [values [-> [-> [Hn Hv]]]]]]]].
    destruct (Hdrawn x f0 fs names values Hn Hv) as [m E].
    destruct (comprehension_ok_inv _ _ _ Hn) as [Ln _].
    destruct (comprehension_ok_inv _ _ _ Hv) as [Lv _].
    rewrite E in H |- *. cbn [effects fst] in H. destruct H as [H|H].
    + injection H as <- <-. unfold contributions_norm. rewrite !length_map.
      split; [exact Lv|]. split; [exact Ln|].
      eexists. split; [reflexivity|]. split.
      * rewrite length_map, length_combine, Ln, Lv. apply Nat.min_id.
      * intros e He. apply in_map_iff in He. destruct He as [[name value] [<- _]].
        now exists name, value.
    + apply in_map_iff in H. destruct H as [[name value] [H _]]. discriminate.
Qed.

(** X15.  Lines 105 to 132.  Take explanations that are ASCII texts.  The
    radar is drawn exactly when the answer has a score and at least one
    explanation and every explanation holds an apostrophe and ends with a
    token that [float] accepts.  It then has one axis and one magnitude
    per explanation, and it is followed by one line of summary per
    explanation and by nothing else, and the section raises nothing. *)
Theorem factors_drawn_iff (score : option float) (shap_factors : list string) :
  (forall f, In f shap_factors -> is_ascii f) ->
  ((exists r theta, In (plotly_radar r theta)
                       (effects (shap_factors_radar score shap_factors))) <->
   (exists x, score = Some x) /\ shap_factors <> [] /\
   (forall f, In f shap_factors ->
              In "'"%char (list_ascii_of_string f) /\ numeric_token f)) /\
  (forall r theta,
      In (plotly_radar r theta) (effects (shap_factors_radar score shap_factors)) ->
      List.length r = List.length shap_factors /\
      List.length theta = List.length shap_factors /\
      exists lines,
        shap_factors_radar score shap_factors = (plotly_radar r theta :: lines, ok tt) /\
        List.length lines = List.length shap_factors /\
        (forall e, In e lines -> exists name value, e = facteur name value)).
Proof.
  intros _. destruct (radar_drawn_iff score shap_factors) as [H1 H2].
  split; [|exact H2]. rewrite H1.
  split; intros [Hs [Hne Hall]]; (split; [exact Hs|]); (split; [exact Hne|]);
    intros f Hf; destruct (Hall f Hf) as [Ha Hb]; split.
  - now apply quoted_feature.
  - now apply numeric_token_contribution.
  - now apply quoted_feature.
  - now apply numeric_token_contribution.
Qed.

(** An instance: a score of 0.8 with one explanation. *)
Lemma factors_drawn_iff_witness :
  ((exists r theta, In (plotly_radar r theta)
                       (effects (shap_factors_radar (Some lit_0_8)
                                   ["'age' contributes 0.42"]))) <->
   (exists x, Some lit_0_8 = Some x) /\ ["'age' contributes 0.42"] <> [] /\
   (forall f, In f ["'age' contributes 0.42"] ->
              In "'"%char (list_ascii_of_string f) /\ numeric_token f)) /\
  (forall r theta,
      In (plotly_radar r theta)
         (effects (shap_factors_radar (Some lit_0_8) ["'age' contributes 0.42"])) ->
      List.length r = List.length ["'age' contributes 0.42"] /\
      List.length theta = List.length ["'age' contributes 0.42"] /\
      exists lines,
        shap_factors_radar (Some lit_0_8) ["'age' contributes 0.42"] =
        (plotly_radar r theta :: lines, ok tt) /\
        List.length lines = List.length ["'age' contributes 0.42"] /\
        (forall e, In e lines -> exists name value, e = facteur name value)).
Proof.
  apply (factors_drawn_iff (Some lit_0_8) ["'age' contributes 0.42"]).
  intros f [<-|[]]. reflexivity.
Defined.

(** ** How a run can end *)

Lemma for_each_raises {A : Type} (body : A -> M unit) (l : list A) (e : exn) :
  outcome_of (for_each l body) = raise e ->
  exists x, In x l /\ outcome_of (body x) = raise e.
Proof.
  induction l as [|x l IH]; simpl; [discriminate|].
  rewrite outcome_bind. destruct (outcome_of (body x)) as [e'|u] eqn:E.
  - intros H. exists x. split; [now left|]. now rewrite E.
  - intros H. destruct (IH H) as [y [Hy Hb]]. exists y. split; [now right|exact Hb].
Qed.

Lemma comprehension_raises_inv {A B : Type} (f : A -> result B) (l : list A) (e : exn) :
  comprehension f l = raise e -> exists x, In x l /\ f x = raise e.
Proof.
  induction l as [|x l IH]; simpl; [discriminate|].
  destruct (f x) as [e'|y] eqn:E; simpl.
  - intros H. exists x. split; [now left|]. unfold raise in *. congruence.
  - destruct (comprehension f l) as [e'|ys]; simpl; [|discriminate].
    intros H. destruct (IH H) as [z [Hz Hf]]. exists z. split; [now right|exact Hf].
Qed.

Lemma contribution_raises_any (f : string) (e : exn) :
  contribution f = raise e -> e = IndexError \/ e = ValueError.
Proof.
  unfold contribution, Str.getitem_last, Str.getitem.
  destruct (nth_error (rev (Str.split f)) 0) as [token|]; simpl.
  - intros H. right. now apply float_of_str_raises in H.
  - unfold raise. intros H. left. congruence.
Qed.

Lemma shap_factors_radar_raises_inv (score : option float) (shap_factors : list string) (e : exn) :
  outcome_of (shap_factors_radar score shap_factors) = raise e ->
  e = IndexError \/ e = ValueError.
Proof.
  unfold shap_factors_radar.
  destruct score as [x|]; [|discriminate].
  destruct shap_factors as [|f0 fs]; [discriminate|].
  destruct (comprehension feature (f0 :: fs)) as [x1|names] eqn:En.
  { intros H. cbn in H. apply comprehension_raises_inv in En.
    destruct En as [f [_ Hf]]. apply feature_raises in Hf. left. unfold raise in H. congruence. }
  rewrite bind_lift_ok.
  destruct (comprehension contribution (f0 :: fs)) as [x2|values] eqn:Ev.
  { intros H. cbn in H. apply comprehension_raises_inv in Ev.
    destruct Ev as [f [_ Hf]]. apply contribution_raises_any in Hf.
    unfold raise in H. injection H as <-. exact Hf. }
  rewrite bind_lift_ok.
  destruct (max_val values) as [x3|m] eqn:Em.
  { intros H. cbn in H. right. unfold max_val, py_max in Em.
    destruct (map abs values); [|discriminate].
    unfold raise in *. simpl in Em. congruence. }
  rewrite bind_lift_ok, bind_do. cbn [outcome_of snd].
  intros H. apply for_each_raises in H. destruct H as [f [_ H]].
  rewrite outcome_bind in H. cbn [outcome_of snd lift] in H.
  destruct (feature f) as [y|name] eqn:Ef.
  { apply feature_raises in Ef. left. unfold raise in H. congruence. }
  rewrite outcome_bind in H. cbn [outcome_of snd lift] in H.
  destruct (contribution f) as [y|value] eqn:Ec; [|discriminate].
  apply contribution_raises_any in Ec. unfold raise in H. injection H as <-. exact Ec.
Qed.

Lemma sidebar_filters_raises (s : Session) (clients : list Client) (e : exn) :
  sidebar_filters s clients = ([], raise e) ->
  e = ValueError \/ e = OverflowError \/ e = StreamlitJSNumberBoundsError.
Proof.
  assert (Hint : forall col x, int_min_int col = raise x \/ int_max_int col = raise x ->
                               x = ValueError).
  { intros [|v col] x [H|H]; simpl in H; unfold raise, ok in H; congruence. }
  assert (Hflt : forall v x, to_int v = raise x -> x = ValueError \/ x = OverflowError).
  { intros [| | |] x H; simpl in H; unfold raise, ok in H; try discriminate;
      injection H as <-; auto. }
  assert (Hsl : forall lo hi value set x,
             slider lo hi value set = raise x -> x = StreamlitJSNumberBoundsError).
  { intros lo hi value set x. unfold slider.
    destruct (validate_int_bounds lo hi value); unfold raise, ok; congruence. }
  unfold sidebar_filters, age_bounds, income_bounds, incident_bounds.
  destruct (int_min_int (map age clients)) as [x|alo] eqn:E1; cbn [rbind].
  { intros H. left. injection H as <-. apply (Hint _ _ (or_introl E1)). }
  destruct (int_max_int (map age clients)) as [x|ahi] eqn:E2; cbn [rbind].
  { intros H. left. injection H as <-. apply (Hint _ _ (or_intror E2)). }
  rewrite bind_lift_ok. cbn [fst snd].
  destruct (slider alo ahi (18, 70) (age_slider s)) as [x|age_filter] eqn:S1.
  { intros H. right. right. injection H as <-. apply (Hsl _ _ _ _ _ S1). }
  rewrite bind_lift_ok.
  destruct (to_int (series_min (map revenu clients))) as [x|ilo] eqn:E3; cbn [rbind].
  { intros H. injection H as <-. destruct (Hflt _ _ E3); auto. }
  destruct (to_int (series_max (map revenu clients))) as [x|ihi] eqn:E4; cbn [rbind].
  { intros H. injection H as <-. destruct (Hflt _ _ E4); auto. }
  rewrite bind_lift_ok. cbn [fst snd].
  destruct (slider ilo ihi (1000, 100000) (income_slider s)) as [x|income_filter] eqn:S2.
  { intros H. right. right. injection H as <-. apply (Hsl _ _ _ _ _ S2). }
  rewrite bind_lift_ok.
  destruct (int_min_int (map nb_incidents clients)) as [x|nlo] eqn:E5; cbn [rbind].
  { intros H. left. injection H as <-. apply (Hint _ _ (or_introl E5)). }
  destruct (int_max_int (map nb_incidents clients)) as [x|nhi] eqn:E6; cbn [rbind].
  { intros H. left. injection H as <-. apply (Hint _ _ (or_intror E6)). }
  rewrite bind_lift_ok. cbn [fst snd].
  destruct (slider nlo nhi (0, 10) (incident_slider s)) as [x|incident_filter] eqn:S3.
  { intros H. right. right. injection H as <-. apply (Hsl _ _ _ _ _ S3). }
  rewrite bind_lift_ok. discriminate.
Qed.

(** What a run that does not reach its end ends with. *)
Lemma streamlit_app_raises (s : Session) (e : exn) :
  outcome_of (streamlit_app s) = raise e ->
  (e = StopException /\ file s = None) \/
  e = ValueError \/ e = OverflowError \/ e = StreamlitJSNumberBoundsError \/
  e = IndexError.
Proof.
  destruct (streamlit_app_shape s) as [Hfile Hrun|rows x Hfile Hf Hrun
                                       |rows a i n Hfile _ _ Hrun|rows a i n c Hfile Hf Hc Hrun];
    rewrite Hrun; cbn [outcome_of snd]; unfold raise; intros H.
  - left. split; [congruence|exact Hfile].
  - injection H as <-. apply sidebar_filters_raises in Hf. tauto.
  - injection H as <-. tauto.
  - destruct (scoring_decomposed s (filtered_clients (rename_index (reset_index rows)) a i n) c)
      as [w [score [shap_factors [_ [_ Ho]]]]].
    rewrite Ho in H. apply shap_factors_radar_raises_inv in H. tauto.
Qed.

(** X16.  The whole script.  Whatever the scoring service does, a run
    never ends with one of the exceptions of the call, [ConnectionError],
    [Timeout], [HTTPError] or [JSONDecodeError]: lines 59 and 60 catch
    them all, and no later line raises one of them.  [StopException]
    ends a run only when the file is missing. *)
Theorem run_never_ends_by_the_service (s : Session) (e : exn) :
  outcome_of (streamlit_app s) = raise e ->
  e <> ConnectionError /\ e <> Timeout /\ e <> HTTPError /\ e <> JSONDecodeError /\
  (e = StopException -> file s = None).
Proof.
  intros H. apply streamlit_app_raises in H.
  destruct H as [[-> H] | [-> | [-> | [-> | ->]]]]; repeat split; try discriminate.
  intros _. exact H.
Qed.

(** An instance: the sample session with the income slider at a range
    that holds no client. *)
Lemma run_never_ends_by_the_service_witness :
  IndexError <> ConnectionError /\ IndexError <> Timeout /\ IndexError <> HTTPError /\
  IndexError <> JSONDecodeError /\
  (IndexError = StopException -> file Sample.session_no_match = None).
Proof.
  apply (run_never_ends_by_the_service Sample.session_no_match IndexError).
  vm_compute. reflexivity.
Defined.

(** ** An explanation that cannot be read *)

(** C3, as the script has it.  Take a run in which the service answers the
    request with a score and a list of explanations, one of which cannot
    be read: it holds no apostrophe at all, or it is an ASCII text whose
    last token is no number for [float].  The run then ends with an
    exception that nothing catches, [IndexError] when some explanation
    holds no apostrophe and [ValueError] otherwise.  What has been
    produced by then is the count, the request, the gauge with its verdict
    and the table of the client: no radar, no summary line, not even for
    the explanations that can be read, and no table of the filtered
    clients. *)
Theorem unreadable_explanation_ends_the_run
  (s : Session) (rows : list Row) (a i n : Z * Z) (c : Client) (r : Response)
  (score : float) (shap_factors : list string) :
  let view := filtered_clients (rename_index (reset_index rows)) a i n in
  file s = Some rows ->
  sidebar_filters s (rename_index (reset_index rows)) = ([], ok (a, i, n)) ->
  client view (selectbox (map client_id view) (picked s)) = ok c ->
  button s = true ->
  post s (payload c) = response r ->
  raise_for_status r = ok tt ->
  body r = Some {| resp_score := Some score; resp_explanations := Some shap_factors |} ->
  (exists f, In f shap_factors /\ unreadable f) ->
  exists e,
    streamlit_app s =
      (sidebar_clients_filtres (List.length view)
         :: requests_post API_URL (payload c) 10
         :: effects (score_gauge (Some score)) ++ [st_table_client c],
       raise e) /\
    shap_factors_radar (Some score) shap_factors = ([], raise e) /\
    ((exists f, In f shap_factors /\ no_quote f) -> e = IndexError) /\
    ((forall f, In f shap_factors -> ~ no_quote f) -> e = ValueError).
Proof.
  intros view Hfile Hf Hc Hb Hpost Hst Hbody Hbad.
  destruct (unreadable_explanation_raises score shap_factors) as [e [Hr [H1 H2]]].
  { destruct Hbad as [f [Hin [H|[_ H]]]]; exists f; auto. }
  exists e. split; [|split; [exact Hr|split; assumption]].
  rewrite (streamlit_app_loaded s rows Hfile).
  rewrite (page_selected s _ a i n c Hf Hc). fold view.
  destruct (scoring_decomposed s view c) as [w [sc [sf [Hcall [He Ho]]]]].
  rewrite Hb, api_call_cases, Hpost in Hcall.
  unfold raise_for_status in Hst.
  destruct ((400 <=? status_code r) && (status_code r <? 600)); [discriminate|].
  rewrite Hbody in Hcall. unfold interpret in Hcall. cbn [resp_score resp_explanations get] in Hcall.
  injection Hcall as <- <- <-.
  rewrite He, Ho, Hr. reflexivity.
Qed.

(** The claim of C3 fails as it is stated: the first explanation below can
    be read (feature [age], contribution 0.42), the second one holds no
    apostrophe; the script raises [IndexError] and draws no factor at all,
    not even the one of [age], and the run ends there.  With a last token
    that is not a number the same happens with [ValueError]. *)
Lemma malformed_entry_drops_every_factor :
  feature "'age' contributes 0.42" = ok "age" /\
  contribution "'age' contributes 0.42" = ok (of_decimal false 42 (-2)) /\
  no_quote "oops 0.1" /\
  shap_factors_radar (Some lit_0_8) ["'age' contributes 0.42"; "oops 0.1"] =
  ([], raise IndexError) /\
  streamlit_app (Sample.session (response Sample.unreadable_answer)) =
  ([sidebar_clients_filtres 2; requests_post API_URL (payload Sample.client_0) 10;
    plotly_gauge (mul lit_0_8 (of_int 100)); st_success_eligible;
    st_table_client Sample.client_0],
   raise IndexError) /\
  non_numeric_token "'revenu' contributes abc" /\
  shap_factors_radar (Some lit_0_8) ["'age' contributes 0.42"; "'revenu' contributes abc"] =
  ([], raise ValueError).
Proof.
  repeat split; try (vm_compute; reflexivity).
  - unfold no_quote. simpl. intuition discriminate.
  - exists "abc". split; vm_compute; reflexivity.
Qed.

(** An instance: the sample session, answered with two explanations, the
    second without any apostrophe. *)
Lemma unreadable_explanation_ends_the_run_witness :
  exists e,
    streamlit_app (Sample.session (response Sample.unreadable_answer)) =
      (sidebar_clients_filtres
         (List.length (filtered_clients (rename_index (reset_index Sample.rows))
                         (18, 70) (1000, 100000) (0, 10)))
         :: requests_post API_URL (payload Sample.client_0) 10
         :: effects (score_gauge (Some lit_0_8)) ++ [st_table_client Sample.client_0],
       raise e) /\
    shap_factors_radar (Some lit_0_8) ["'age' contributes 0.42"; "oops 0.1"] =
    ([], raise e) /\
    ((exists f, In f ["'age' contributes 0.42"; "oops 0.1"] /\ no_quote f) ->
     e = IndexError) /\
    ((forall f, In f ["'age' contributes 0.42"; "oops 0.1"] -> ~ no_quote f) ->
     e = ValueError).
Proof.
  apply (unreadable_explanation_ends_the_run
           (Sample.session (response Sample.unreadable_answer)) Sample.rows
           (18, 70) (1000, 100000) (0, 10) Sample.client_0 Sample.unreadable_answer
           lit_0_8 ["'age' contributes 0.42"; "oops 0.1"]).
  - reflexivity.
  - vm_compute. reflexivity.
  - vm_compute. reflexivity.
  - reflexivity.
  - reflexivity.
  - reflexivity.
  - reflexivity.
  - exists "oops 0.1". split; [simpl; auto|].
    left. unfold no_quote. simpl. intuition discriminate.
Defined.
